(** * ChessVar: a shallow embedding of the chess-variant rules engine

    The Python module [ChessVar.py] holds the piece classes ([King],
    [Knight], [Bishop], [Rook]) and the engine class [ChessVar] with
    its board dictionary, turn, grace flag and game state.  This file
    embeds those classes as Rocq functions and proves properties of the
    move-legality test, the path computation and the outcome state
    machine.

    Conventions of the embedding:
    - Python [int] is [Z]; a character is an [ascii] (code points below
      256), a [str] is a [string];
    - a Python exception is the [Raise] constructor of [result];
    - the board [dict] is an association list in insertion order, since
      [locate_kings] and [results_in_check] iterate over [items()];
    - the colour strings ['w'] / ['b'] and the four state strings are
      enumerations. *)

From Stdlib Require Import ZArith String Ascii List Bool Lia DecimalString.
From stdpp Require Import gmap.
Import ListNotations.

Local Open Scope string_scope.
Local Open Scope Z_scope.

(* ================================================================= *)
(** ** Python values and exceptions *)

Inductive exn : Type :=
| IndexError
| ValueError
| KeyError
| UnboundLocalError.

Inductive result (A : Type) : Type :=
| Ok (a : A)
| Raise (e : exn).

Arguments Ok {A} a.
Arguments Raise {A} e.

Definition bind {A B : Type} (m : result A) (k : A -> result B) : result B :=
  match m with
  | Ok a => k a
  | Raise e => Raise e
  end.

Notation "'let*' x ':=' m 'in' k" := (bind m (fun x => k))
  (at level 10, x name, m at level 100, k at level 200).

(** [e1 and e2] where only the second operand can raise. *)
Definition py_and (a : bool) (b : result bool) : result bool :=
  if a then b else Ok false.

(** [s[i]] on a [str]. *)
Definition getitem (s : string) (i : nat) : result ascii :=
  match String.get i s with
  | Some c => Ok c
  | None => Raise IndexError
  end.

(** [ord(c)]. *)
Definition ord (c : ascii) : Z := Z.of_N (N_of_ascii c).

(** [chr(z)], used by the source only on values lying between two [ord]s. *)
Definition chr (z : Z) : string := String (ascii_of_N (Z.to_N z)) EmptyString.

(** [int(c)] on a one-character string: a decimal digit or [ValueError].
    Characters are the code points below 256, and among those the
    characters ['0'] to ['9'] are the only ones that [int] converts. *)
Definition int (c : ascii) : result Z :=
  if (48 <=? ord c) && (ord c <=? 57) then Ok (ord c - 48) else Raise ValueError.

(** [str(n)] on an [int]. *)
Definition str (n : Z) : string := NilZero.string_of_int (Z.to_int n).

(** [range(lo, hi)]. *)
Definition range (lo hi : Z) : list Z :=
  map (fun i => lo + Z.of_nat i) (seq 0 (Z.to_nat (hi - lo))).

(** [abs(int(a) - int(b))]. *)
Definition abs_rank_delta (a b : ascii) : result Z :=
  let* x := int a in
  let* y := int b in
  Ok (Z.abs (x - y)).

(* ================================================================= *)
(** ** Pieces *)

(** The colour strings ['w'] and ['b']. *)
Inductive color : Type := White | Black.

Definition color_eqb (a b : color) : bool :=
  match a, b with
  | White, White | Black, Black => true
  | _, _ => false
  end.

(** The four subclasses of [Piece]; each constructor call stores the colour. *)
Inductive piece : Type :=
| King (c : color)
| Knight (c : color)
| Bishop (c : color)
| Rook (c : color).

Definition get_color (p : piece) : color :=
  match p with
  | King c | Knight c | Bishop c | Rook c => c
  end.

(** [_king] is set by [King.__init__] only. *)
Definition is_king (p : piece) : bool :=
  match p with
  | King _ => true
  | _ => false
  end.

(** [_jumper] is set by [Knight.__init__] only. *)
Definition can_jump (p : piece) : bool :=
  match p with
  | Knight _ => true
  | _ => false
  end.

(** [King.valid_move]: at most one file and at most one rank away. *)
Definition King_valid_move (current next : string) : result bool :=
  let* current_file := getitem current 0 in
  let* current_rank := getitem current 1 in
  let* next_file := getitem next 0 in
  let* next_rank := getitem next 1 in
  if Z.abs (ord current_file - ord next_file) >? 1 then Ok false else
  let* dr := abs_rank_delta current_rank next_rank in
  if dr >? 1 then Ok false else
  Ok true.

(** [Knight.valid_move]: the three early returns, each an [and] whose
    second operand is only evaluated when the first holds. *)
Definition Knight_valid_move (current next : string) : result bool :=
  let* current_file := getitem current 0 in
  let* current_rank := getitem current 1 in
  let* next_file := getitem next 0 in
  let* next_rank := getitem next 1 in
  let df := Z.abs (ord current_file - ord next_file) in
  let* c1 := py_and (negb (df =? 2))
               (let* dr := abs_rank_delta current_rank next_rank in
                Ok (negb (dr =? 2))) in
  if c1 then Ok false else
  let* c2 := py_and (df =? 2)
               (let* dr := abs_rank_delta current_rank next_rank in
                Ok (negb (dr =? 1))) in
  if c2 then Ok false else
  let* c3 := py_and (negb (df =? 1))
               (let* dr := abs_rank_delta current_rank next_rank in
                Ok (dr =? 2)) in
  if c3 then Ok false else
  Ok true.

(** [Bishop.valid_move]: the change in file equals the change in rank. *)
Definition Bishop_valid_move (current next : string) : result bool :=
  let* current_file := getitem current 0 in
  let* current_rank := getitem current 1 in
  let* next_file := getitem next 0 in
  let* next_rank := getitem next 1 in
  let* dr := abs_rank_delta current_rank next_rank in
  if negb (Z.abs (ord current_file - ord next_file) =? dr) then Ok false else
  Ok true.

(** [Rook.valid_move]: not across a file and a rank at once; the file and
    rank characters are compared as characters. *)
Definition Rook_valid_move (current next : string) : result bool :=
  let* current_file := getitem current 0 in
  let* current_rank := getitem current 1 in
  let* next_file := getitem next 0 in
  let* next_rank := getitem next 1 in
  if negb (Ascii.eqb current_file next_file)
     && negb (Ascii.eqb current_rank next_rank) then Ok false else
  Ok true.

(** Method dispatch [piece.valid_move(current, next)]. *)
Definition valid_move (p : piece) (current next : string) : result bool :=
  match p with
  | King _ => King_valid_move current next
  | Knight _ => Knight_valid_move current next
  | Bishop _ => Bishop_valid_move current next
  | Rook _ => Rook_valid_move current next
  end.

(* ================================================================= *)
(** ** The board dictionary *)

(** A [dict] from square strings to pieces, entries in insertion order. *)
Definition py_dict : Type := list (string * piece).

Fixpoint dict_get (d : py_dict) (k : string) : option piece :=
  match d with
  | [] => None
  | (k', v) :: rest => if String.eqb k k' then Some v else dict_get rest k
  end.

(** [k in d]. *)
Definition dict_contains (d : py_dict) (k : string) : bool :=
  match dict_get d k with
  | Some _ => true
  | None => false
  end.

Fixpoint dict_remove (d : py_dict) (k : string) : py_dict :=
  match d with
  | [] => []
  | (k', v) :: rest =>
      if String.eqb k k' then rest else (k', v) :: dict_remove rest k
  end.

(** [del d[k]]: [KeyError] when the key is absent. *)
Definition delitem (d : py_dict) (k : string) : result py_dict :=
  if dict_contains d k then Ok (dict_remove d k) else Raise KeyError.

(** [d[k] = v]: an existing key keeps its position, a new key goes last. *)
Fixpoint setitem (d : py_dict) (k : string) (v : piece) : py_dict :=
  match d with
  | [] => [(k, v)]
  | (k', v') :: rest =>
      if String.eqb k k' then (k', v) :: rest else (k', v') :: setitem rest k v
  end.

(* ================================================================= *)
(** ** The engine class [ChessVar] *)

Inductive game_state : Type := UNFINISHED | WHITE_WON | BLACK_WON | TIE.

Definition game_state_eqb (a b : game_state) : bool :=
  match a, b with
  | UNFINISHED, UNFINISHED | WHITE_WON, WHITE_WON
  | BLACK_WON, BLACK_WON | TIE, TIE => true
  | _, _ => false
  end.

Record ChessVar : Type := mkChessVar {
  _board : py_dict;
  _board_size : Z;
  _turn : color;
  _game_end_imminent : bool;
  _state : game_state
}.

Definition set_board (self : ChessVar) (b : py_dict) : ChessVar :=
  mkChessVar b (_board_size self) (_turn self) (_game_end_imminent self) (_state self).

Definition set_turn (self : ChessVar) (t : color) : ChessVar :=
  mkChessVar (_board self) (_board_size self) t (_game_end_imminent self) (_state self).

Definition set_game_end_imminent (self : ChessVar) (f : bool) : ChessVar :=
  mkChessVar (_board self) (_board_size self) (_turn self) f (_state self).

Definition set_state (self : ChessVar) (st : game_state) : ChessVar :=
  mkChessVar (_board self) (_board_size self) (_turn self) (_game_end_imminent self) st.

Definition get_turn (self : ChessVar) : color := _turn self.
Definition get_game_state (self : ChessVar) : game_state := _state self.
Definition get_board_size (self : ChessVar) : Z := _board_size self.

(** [str.lower()] on code points below 256. *)
Definition lower_char (c : ascii) : ascii :=
  let n := ord c in
  if ((65 <=? n) && (n <=? 90))
     || ((192 <=? n) && (n <=? 222) && negb (n =? 215))
  then ascii_of_N (Z.to_N (n + 32)) else c.

Fixpoint lower (s : string) : string :=
  match s with
  | EmptyString => EmptyString
  | String c rest => String (lower_char c) (lower rest)
  end.

(** [spawn_piece] returns the updated object and the boolean. *)
Definition spawn_piece (self : ChessVar) (name square : string) (c : color)
  : ChessVar * bool :=
  if String.eqb (lower name) "knight" then
    (set_board self (setitem (_board self) (lower square) (Knight c)), true)
  else if String.eqb (lower name) "king" then
    (set_board self (setitem (_board self) (lower square) (King c)), true)
  else if String.eqb (lower name) "bishop" then
    (set_board self (setitem (_board self) (lower square) (Bishop c)), true)
  else if String.eqb (lower name) "rook" then
    (set_board self (setitem (_board self) (lower square) (Rook c)), true)
  else (self, false).

Definition setup_default_start_pos (self : ChessVar) : ChessVar :=
  let self := fst (spawn_piece self "king" "a1" White) in
  let self := fst (spawn_piece self "rook" "a2" White) in
  let self := fst (spawn_piece self "bishop" "b1" White) in
  let self := fst (spawn_piece self "bishop" "b2" White) in
  let self := fst (spawn_piece self "knight" "c1" White) in
  let self := fst (spawn_piece self "knight" "c2" White) in
  let self := fst (spawn_piece self "king" "h1" Black) in
  let self := fst (spawn_piece self "rook" "h2" Black) in
  let self := fst (spawn_piece self "bishop" "g1" Black) in
  let self := fst (spawn_piece self "bishop" "g2" Black) in
  let self := fst (spawn_piece self "knight" "f1" Black) in
  let self := fst (spawn_piece self "knight" "f2" Black) in
  self.

(** [ChessVar()]. *)
Definition new_ChessVar : ChessVar :=
  setup_default_start_pos (mkChessVar [] 8 White false UNFINISHED).

(** [get_piece_at_square]: [None] when the square is not a key. *)
Definition get_piece_at_square (board : py_dict) (square : string) : option piece :=
  if negb (dict_contains board square) then None else dict_get board square.

(** [is_valid_square]: in [not A or not B] the rank is only read when the
    file is in range. *)
Definition is_valid_square (self : ChessVar) (square : string) : result bool :=
  let* c0 := getitem square 0 in
  if negb ((97 <=? ord c0) && (ord c0 <=? 97 + _board_size self - 1)) then Ok false else
  let* c1 := getitem square 1 in
  let* r := int c1 in
  if negb ((1 <=? r) && (r <=? _board_size self)) then Ok false else
  Ok true.

(** [change_turns]. *)
Definition change_turns (self : ChessVar) : ChessVar :=
  if color_eqb (_turn self) White then set_turn self Black
  else if color_eqb (_turn self) Black then set_turn self White
  else self.

(** [[chars[idx] + nums[idx] for idx in range(len(chars))]]. *)
Fixpoint pair_up (chars nums : list string) (idxs : list nat) : result (list string) :=
  match idxs with
  | [] => Ok []
  | idx :: rest =>
      match nth_error chars idx, nth_error nums idx with
      | Some c, Some n =>
          let* tl := pair_up chars nums rest in
          Ok (String.append c n :: tl)
      | _, _ => Raise IndexError
      end
  end.

(** [get_squares_between]: the file branch, the rank branch, the diagonal
    branch with its two reversals, and the empty list otherwise. *)
Definition get_squares_between (curr_square new_square : string)
  : result (list string) :=
  let* c0 := getitem curr_square 0 in
  let curr_file := ord c0 in
  let* n0 := getitem new_square 0 in
  let new_file := ord n0 in
  let* c1 := getitem curr_square 1 in
  let* curr_rank := int c1 in
  let* n1 := getitem new_square 1 in
  let* new_rank := int n1 in
  let delta_file := Z.abs (curr_file - new_file) in
  let delta_rank := Z.abs (curr_rank - new_rank) in
  if delta_file =? 0 then
    Ok (map (fun nums => String.append (chr curr_file) (str nums))
            (range (Z.min curr_rank new_rank + 1) (Z.max curr_rank new_rank)))
  else if delta_rank =? 0 then
    Ok (map (fun chars => String.append (chr chars) (str curr_rank))
            (range (Z.min curr_file new_file + 1) (Z.max curr_file new_file)))
  else if delta_file =? delta_rank then
    let nums := map str (range (Z.min curr_rank new_rank + 1) (Z.max curr_rank new_rank)) in
    let nums := if new_rank <? curr_rank then rev nums else nums in
    let chars := map chr (range (Z.min curr_file new_file + 1) (Z.max curr_file new_file)) in
    let chars := if new_file <? curr_file then rev chars else chars in
    pair_up chars nums (seq 0 (List.length chars))
  else Ok [].

(** The loop of [locate_kings]; an unassigned local is [None]. *)
Fixpoint locate_kings_loop (items : py_dict) (white_king black_king : option string)
  : option string * option string :=
  match items with
  | [] => (white_king, black_king)
  | (square, piece) :: rest =>
      let black_king :=
        if is_king piece && color_eqb (get_color piece) Black
        then Some square else black_king in
      let white_king :=
        if is_king piece && color_eqb (get_color piece) White
        then Some square else white_king in
      locate_kings_loop rest white_king black_king
  end.

(** [locate_kings]: the [return] reads both locals, and a king that was
    never seen leaves its local unassigned. *)
Definition locate_kings (board : py_dict) : result (string * string) :=
  match locate_kings_loop board None None with
  | (Some white_king, Some black_king) => Ok (white_king, black_king)
  | _ => Raise UnboundLocalError
  end.

(** [can_make_move], with the call to [results_in_check] left open: the two
    methods call each other, and the call below is only reached when
    [hypothetical_position] is [False]. *)
Definition can_make_move_with
    (results_in_check : string -> string -> result bool)
    (self : ChessVar) (board : py_dict) (curr_square new_square : string)
    (hypothetical_position : bool) : result bool :=
  let moving_piece := get_piece_at_square board curr_square in
  if negb (game_state_eqb (_state self) UNFINISHED) then Ok false else
  match moving_piece with
  | None => Ok false
  | Some moving_piece =>
    if negb hypothetical_position
       && negb (color_eqb (get_color moving_piece) (_turn self)) then Ok false else
    let* on_board := is_valid_square self new_square in
    if negb on_board then Ok false else
    let* shape := valid_move moving_piece curr_square new_square in
    if negb shape then Ok false else
    if match get_piece_at_square board new_square with
       | Some target => color_eqb (get_color target) (get_color moving_piece)
       | None => false
       end then Ok false else
    let* blocked :=
      (if negb (can_jump moving_piece) then
         let* between := get_squares_between curr_square new_square in
         Ok (existsb (dict_contains board) between)
       else Ok false) in
    if blocked then Ok false else
    let* check :=
      (if negb hypothetical_position
       then results_in_check curr_square new_square else Ok false) in
    if check then Ok false else
    Ok true
  end.

(** [can_make_move(board, curr, new, hypothetical_position = True)]. *)
Definition can_make_move_hypothetical
    (self : ChessVar) (board : py_dict) (curr_square new_square : string)
  : result bool :=
  can_make_move_with (fun _ _ => Ok false) self board curr_square new_square true.

(** The [for square, piece in hypothetical_board.items()] loop. *)
Fixpoint check_loop (self : ChessVar) (hypothetical_board : py_dict)
    (white_king_square black_king_square : string) (items : py_dict)
  : result bool :=
  match items with
  | [] => Ok false
  | (square, piece) :: rest =>
      let* on_white :=
        py_and (color_eqb (get_color piece) Black)
               (can_make_move_hypothetical self hypothetical_board
                  square white_king_square) in
      if on_white then Ok true else
      let* on_black :=
        py_and (color_eqb (get_color piece) White)
               (can_make_move_hypothetical self hypothetical_board
                  square black_king_square) in
      if on_black then Ok true else
      check_loop self hypothetical_board white_king_square black_king_square rest
  end.

(** The part of [results_in_check] after the hypothetical board is built. *)
Definition gives_check (self : ChessVar) (hypothetical_board : py_dict)
  : result bool :=
  let* kings := locate_kings hypothetical_board in
  check_loop self hypothetical_board (fst kings) (snd kings) hypothetical_board.

(** [results_in_check], on the value of the live board (the store version
    below keeps the copy and the original apart). *)
Definition results_in_check (self : ChessVar) (curr_square new_square : string)
  : result bool :=
  let hypothetical_board := _board self in
  let moving_piece := get_piece_at_square (_board self) curr_square in
  let* hypothetical_board := delitem hypothetical_board curr_square in
  match moving_piece with
  | None => Raise KeyError
  | Some moving_piece =>
      let hypothetical_board := setitem hypothetical_board new_square moving_piece in
      gives_check self hypothetical_board
  end.

(** [can_make_move], the knot tied. *)
Definition can_make_move (self : ChessVar) (board : py_dict)
    (curr_square new_square : string) (hypothetical_position : bool)
  : result bool :=
  can_make_move_with (results_in_check self) self board
    curr_square new_square hypothetical_position.

(** [at_highest_rank]. *)
Definition at_highest_rank (self : ChessVar) (square : string) : result bool :=
  let* c1 := getitem square 1 in
  let* r := int c1 in
  Ok (r =? _board_size self).

(** [a and b] where both operands can raise. *)
Definition py_and_then (a b : result bool) : result bool :=
  let* x := a in
  if x then b else Ok false.

(** [update_game_state]: the [if]/[elif] chain; the object is returned
    with the result, unchanged when an exception is raised. *)
Definition update_game_state (self : ChessVar) : ChessVar * result bool :=
  match locate_kings (_board self) with
  | Raise e => (self, Raise e)
  | Ok (white_king_square, black_king_square) =>
    let black := at_highest_rank self black_king_square in
    let white := at_highest_rank self white_king_square in
    match py_and_then black (let* w := white in Ok (negb w)) with
    | Raise e => (self, Raise e)
    | Ok true => (set_state self BLACK_WON, Ok true)
    | Ok false =>
      match py_and_then black white with
      | Raise e => (self, Raise e)
      | Ok true => (set_state self TIE, Ok true)
      | Ok false =>
        match py_and_then white (Ok (negb (_game_end_imminent self))) with
        | Raise e => (self, Raise e)
        | Ok true => (set_game_end_imminent self true, Ok false)
        | Ok false =>
          match py_and_then white (Ok (_game_end_imminent self)) with
          | Raise e => (self, Raise e)
          | Ok true => (set_state self WHITE_WON, Ok true)
          | Ok false => (self, Ok false)
          end
        end
      end
    end
  end.

(** [make_move]: the object after the call and the boolean or the
    exception; an exception raised after the board was changed leaves the
    change in place. *)
Definition make_move (self : ChessVar) (curr_square new_square : string)
  : ChessVar * result bool :=
  match can_make_move self (_board self) curr_square new_square false with
  | Raise e => (self, Raise e)
  | Ok false => (self, Ok false)
  | Ok true =>
      let moving_piece := get_piece_at_square (_board self) curr_square in
      match delitem (_board self) curr_square, moving_piece with
      | Ok board, Some moving_piece =>
          let self := set_board self (setitem board new_square moving_piece) in
          let self := change_turns self in
          let (self, over) := update_game_state self in
          match over with
          | Raise e => (self, Raise e)
          | Ok _ => (self, Ok true)
          end
      | Raise e, _ => (self, Raise e)
      | Ok _, None => (self, Raise KeyError)
      end
  end.

(* ================================================================= *)
(** ** The input screen of [ChessUI] *)

(** [ChessUI.valid_entry], which guards every call of [make_move] made by
    [user_to_move]. *)
Definition valid_entry (engine : ChessVar) (square : string) : bool :=
  if negb (Nat.eqb (String.length square) 2) then false else
  match String.get 0 square, String.get 1 square with
  | Some c0, Some c1 =>
      if negb (existsb (String.eqb (String c0 EmptyString))
                 (map chr (range 97 (97 + get_board_size engine)))) then false else
      if negb (existsb (String.eqb (String c1 EmptyString))
                 (map str (range 1 (1 + get_board_size engine)))) then false else
      true
  | _, _ => false
  end.

(* ================================================================= *)
(** ** Dictionaries as heap objects

    [results_in_check] copies the live board with [dict.copy()] and then
    mutates the copy; [make_move] mutates the live board in place.  To
    state that these two do not interfere, dictionaries are placed in a
    store indexed by object identity and the engine object holds a
    reference to its board. *)

Definition loc : Type := positive.

Definition deref (h : gmap loc py_dict) (l : loc) : py_dict :=
  default [] (h !! l).

(** [d.copy()]: a new dictionary object with the same entries. *)
Definition dict_copy (h : gmap loc py_dict) (l : loc) : gmap loc py_dict * loc :=
  let l' := fresh (dom h) in
  (<[l' := deref h l]> h, l').

(** [del d[k]] through a reference. *)
Definition ref_delitem (h : gmap loc py_dict) (l : loc) (k : string)
  : gmap loc py_dict * result unit :=
  match delitem (deref h l) k with
  | Ok d => (<[l := d]> h, Ok tt)
  | Raise e => (h, Raise e)
  end.

(** [d[k] = v] through a reference. *)
Definition ref_setitem (h : gmap loc py_dict) (l : loc) (k : string) (v : piece)
  : gmap loc py_dict :=
  <[l := setitem (deref h l) k v]> h.

(** The engine object: [_board] is a reference, the other attributes are
    immutable values. *)
Record ChessVarObj : Type := mkChessVarObj {
  board_loc : loc;
  obj_board_size : Z;
  obj_turn : color;
  obj_game_end_imminent : bool;
  obj_state : game_state
}.

(** The value of the object in a store. *)
Definition snapshot (h : gmap loc py_dict) (o : ChessVarObj) : ChessVar :=
  mkChessVar (deref h (board_loc o)) (obj_board_size o) (obj_turn o)
    (obj_game_end_imminent o) (obj_state o).

(** Write back the attributes other than [_board]. *)
Definition store_fields (o : ChessVarObj) (v : ChessVar) : ChessVarObj :=
  mkChessVarObj (board_loc o) (_board_size v) (_turn v)
    (_game_end_imminent v) (_state v).

(** [results_in_check] on the store. *)
Definition results_in_check_ref (h : gmap loc py_dict) (self : ChessVarObj)
    (curr_square new_square : string) : gmap loc py_dict * result bool :=
  let (h, hypothetical_board) := dict_copy h (board_loc self) in
  let moving_piece := get_piece_at_square (deref h (board_loc self)) curr_square in
  match ref_delitem h hypothetical_board curr_square with
  | (h, Raise e) => (h, Raise e)
  | (h, Ok _) =>
      match moving_piece with
      | None => (h, Raise KeyError)
      | Some moving_piece =>
          let h := ref_setitem h hypothetical_board new_square moving_piece in
          (h, gives_check (snapshot h self) (deref h hypothetical_board))
      end
  end.

(** The same method with [.copy()] left out, so that the hypothetical
    board is an alias of the live one.  Not in the source: it is used to
    show that the store tells the two apart. *)
Definition results_in_check_aliased (h : gmap loc py_dict) (self : ChessVarObj)
    (curr_square new_square : string) : gmap loc py_dict * result bool :=
  let hypothetical_board := board_loc self in
  let moving_piece := get_piece_at_square (deref h (board_loc self)) curr_square in
  match ref_delitem h hypothetical_board curr_square with
  | (h, Raise e) => (h, Raise e)
  | (h, Ok _) =>
      match moving_piece with
      | None => (h, Raise KeyError)
      | Some moving_piece =>
          let h := ref_setitem h hypothetical_board new_square moving_piece in
          (h, gives_check (snapshot h self) (deref h hypothetical_board))
      end
  end.

(** [can_make_move] on the store; [board] is a reference. *)
Definition can_make_move_ref (h : gmap loc py_dict) (self : ChessVarObj)
    (board : loc) (curr_square new_square : string)
    (hypothetical_position : bool) : gmap loc py_dict * result bool :=
  let moving_piece := get_piece_at_square (deref h board) curr_square in
  if negb (game_state_eqb (obj_state self) UNFINISHED) then (h, Ok false) else
  match moving_piece with
  | None => (h, Ok false)
  | Some moving_piece =>
    if negb hypothetical_position
       && negb (color_eqb (get_color moving_piece) (obj_turn self))
    then (h, Ok false) else
    match is_valid_square (snapshot h self) new_square with
    | Raise e => (h, Raise e)
    | Ok false => (h, Ok false)
    | Ok true =>
    match valid_move moving_piece curr_square new_square with
    | Raise e => (h, Raise e)
    | Ok false => (h, Ok false)
    | Ok true =>
    if match get_piece_at_square (deref h board) new_square with
       | Some target => color_eqb (get_color target) (get_color moving_piece)
       | None => false
       end then (h, Ok false) else
    match (if negb (can_jump moving_piece) then
             let* between := get_squares_between curr_square new_square in
             Ok (existsb (dict_contains (deref h board)) between)
           else Ok false) with
    | Raise e => (h, Raise e)
    | Ok true => (h, Ok false)
    | Ok false =>
    if negb hypothetical_position then
      match results_in_check_ref h self curr_square new_square with
      | (h, Raise e) => (h, Raise e)
      | (h, Ok true) => (h, Ok false)
      | (h, Ok false) => (h, Ok true)
      end
    else (h, Ok true)
    end end end
  end.

(** [make_move] on the store: the live board is changed in place. *)
Definition make_move_ref (h : gmap loc py_dict) (self : ChessVarObj)
    (curr_square new_square : string)
  : gmap loc py_dict * ChessVarObj * result bool :=
  match can_make_move_ref h self (board_loc self) curr_square new_square false with
  | (h, Raise e) => (h, self, Raise e)
  | (h, Ok false) => (h, self, Ok false)
  | (h, Ok true) =>
      let moving_piece := get_piece_at_square (deref h (board_loc self)) curr_square in
      match ref_delitem h (board_loc self) curr_square with
      | (h, Raise e) => (h, self, Raise e)
      | (h, Ok _) =>
          match moving_piece with
          | None => (h, self, Raise KeyError)
          | Some moving_piece =>
              let h := ref_setitem h (board_loc self) new_square moving_piece in
              let self := store_fields self (change_turns (snapshot h self)) in
              let (v, over) := update_game_state (snapshot h self) in
              let self := store_fields self v in
              match over with
              | Raise e => (h, self, Raise e)
              | Ok _ => (h, self, Ok true)
              end
          end
      end
  end.

(** A sequence of [make_move] calls, as [user_to_move] issues them; a
    caller that catches an exception goes on with the object as it is. *)
Fixpoint play (self : ChessVar) (moves : list (string * string)) : ChessVar :=
  match moves with
  | [] => self
  | (curr_square, new_square) :: rest =>
      play (fst (make_move self curr_square new_square)) rest
  end.

(** Sessions that a new game can get into by calls of [make_move]. *)
Inductive reachable : ChessVar -> Prop :=
| reachable_new : reachable new_ChessVar
| reachable_move (self : ChessVar) (curr_square new_square : string) :
    reachable self ->
    reachable (fst (make_move self curr_square new_square)).

(* ================================================================= *)
(** ** Vocabulary of the statements *)

(** A text that the engine can read as a square: a file character
    followed by a decimal rank digit (anything may follow). *)
Definition square_text (s : string) : bool :=
  match s with
  | String _ (String d _) => (48 <=? ord d) && (ord d <=? 57)
  | _ => false
  end.

(** The file and the rank the engine reads off a square text. *)
Definition file_of (s : string) : result Z :=
  let* c := getitem s 0 in Ok (ord c).

Definition rank_of (s : string) : result Z :=
  let* c := getitem s 1 in int c.

(** The outcome table of the specification: the new state and grace flag
    from the kings' positions and the old flag. *)
Definition recomputed_state (w_at_goal b_at_goal grace : bool)
  : game_state * bool :=
  if b_at_goal && negb w_at_goal then (BLACK_WON, grace)
  else if b_at_goal && w_at_goal then (TIE, grace)
  else if w_at_goal && negb grace then (UNFINISHED, true)
  else if w_at_goal && grace then (WHITE_WON, grace)
  else (UNFINISHED, grace).

(** The board after the piece [p] has gone from [curr] to [new]. *)
Definition relocate (board : py_dict) (curr new : string) (p : piece) : py_dict :=
  setitem (dict_remove board curr) new p.

(** The text of the square on file [file] (a code point) and rank [rank],
    as the engine writes it: [chr(file) + str(rank)]. *)
Definition square (file rank : Z) : string :=
  String.append (chr file) (str rank).

(** Two squares on one file, one rank or one diagonal. *)
Definition aligned (fa ra fb rb : Z) : bool :=
  (fa =? fb) || (ra =? rb) || (Z.abs (fb - fa) =? Z.abs (rb - ra)).

(** The squares strictly between two aligned squares, walking from the
    first toward the second. *)
Definition path_toward (fa ra fb rb : Z) : list string :=
  map (fun i => square (fa + Z.sgn (fb - fa) * i) (ra + Z.sgn (rb - ra) * i))
      (range 1 (Z.max (Z.abs (fb - fa)) (Z.abs (rb - ra)))).

(** The specification's [squaresBetween]: the path in walking order. *)
Definition squares_between_claimed (fa ra fb rb : Z) : list string :=
  if aligned fa ra fb rb then path_toward fa ra fb rb else [].

(** A move down a file or leftwards along a rank. *)
Definition straight_descending (fa ra fb rb : Z) : bool :=
  ((fa =? fb) && (rb <? ra)) || ((ra =? rb) && (fb <? fa)).

(** What the engine lists: along a file or a rank the squares come in
    ascending order whatever the direction of the move. *)
Definition squares_between_listed (fa ra fb rb : Z) : list string :=
  if aligned fa ra fb rb then
    if straight_descending fa ra fb rb
    then rev (path_toward fa ra fb rb)
    else path_toward fa ra fb rb
  else [].

(** Every dictionary of the store [h] is still in [h'], with the same
    entries. *)
Definition preserves (h h' : gmap loc py_dict) : Prop :=
  forall l, is_Some (h !! l) -> h' !! l = h !! l.

(** Every key of the board reads as a square. *)
Definition keys_are_square_texts (board : py_dict) : Prop :=
  forall k p, In (k, p) board -> square_text k = true.

(** The invariant of a session: the board is eight squares wide and,
    while the game is in progress, its keys are distinct square texts and
    no piece can reach the opposing king. *)
Definition session_ok (self : ChessVar) : Prop :=
  _board_size self = 8 /\
  (_state self = UNFINISHED ->
   List.NoDup (map fst (_board self)) /\
   keys_are_square_texts (_board self) /\
   gives_check self (_board self) = Ok false).

(** Some piece on [board] can reach the square of the opposing king, the
    kings standing on [wk] (white) and [bk] (black). *)
Definition some_piece_reaches_king (self : ChessVar) (board : py_dict)
    (wk bk : string) : Prop :=
  exists sq q, In (sq, q) board /\
    ((get_color q = Black /\ can_make_move self board sq wk true = Ok true) \/
     (get_color q = White /\ can_make_move self board sq bk true = Ok true)).

(** The squares that hold a king of colour [c], in iteration order. *)
Definition king_squares (c : color) (board : py_dict) : list string :=
  map fst
    (List.filter
       (fun kv => is_king (snd kv) && color_eqb (get_color (snd kv)) c)
       board).

(** The last element of a list, if any. *)
Definition last_of {A : Type} (l : list A) : option A :=
  List.last (map Some l) None.

(** The square [k] holds a king of colour [c] and no other square does. *)
Definition only_king (c : color) (board : py_dict) (k : string) : Prop :=
  forall k', In (k', King c) board <-> k' = k.

(** The shape of the board of a session: distinct keys that
    [is_valid_square] accepts, at most twelve pieces, one king a side. *)
Definition position_ok (self : ChessVar) : Prop :=
  List.NoDup (map fst (_board self)) /\
  (forall k p, In (k, p) (_board self) -> is_valid_square self k = Ok true) /\
  (List.length (_board self) <= 12)%nat /\
  exists wk bk,
    only_king White (_board self) wk /\ only_king Black (_board self) bk.

(** How the state, the grace flag and the turn go with the places of the
    kings. *)
Definition outcome_ok (self : ChessVar) : Prop :=
  exists wk bk w b,
    locate_kings (_board self) = Ok (wk, bk) /\
    at_highest_rank self wk = Ok w /\
    at_highest_rank self bk = Ok b /\
    match _state self with
    | UNFINISHED =>
        b = false /\ _game_end_imminent self = w /\
        (w = true -> _turn self = Black)
    | BLACK_WON => b = true /\ w = false
    | TIE => b = true /\ w = true
    | WHITE_WON => w = true /\ b = false /\ _game_end_imminent self = true
    end.

(** How a call of [ChessUI.user_to_move] ends: a move was made, the
    input ran out (then [input] raises [EOFError]), or the engine
    raised. *)
Inductive ui_outcome : Type :=
| Moved
| OutOfInput
| EngineRaised (e : exn).

(** [ChessUI.user_to_move] on the lines that [input] will return: it
    reads a source and a destination, calls [make_move] when both pass
    [valid_entry], and asks again until a move is made.  The result is
    the engine, the lines not yet read and the way the call ended; what
    the method prints is left out. *)
Fixpoint user_to_move (engine : ChessVar) (inputs : list string)
  : ChessVar * list string * ui_outcome :=
  match inputs with
  | source :: end_ :: rest =>
      if valid_entry engine source && valid_entry engine end_ then
        match make_move engine source end_ with
        | (engine, Raise e) => (engine, rest, EngineRaised e)
        | (engine, Ok true) => (engine, rest, Moved)
        | (engine, Ok false) => user_to_move engine rest
        end
      else user_to_move engine rest
  | _ => (engine, [], OutOfInput)
  end.

(** The lines [lines] are pairs of a source and a destination that
    [user_to_move] turns down on [engine]: a pair that does not pass
    [valid_entry], or a pair that [make_move] answers with [False]. *)
Fixpoint turned_down (engine : ChessVar) (lines : list string) : Prop :=
  match lines with
  | [] => True
  | source :: end_ :: rest =>
      (valid_entry engine source && valid_entry engine end_ = false \/
       make_move engine source end_ = (engine, Ok false)) /\
      turned_down engine rest
  | _ => False
  end.

(** Three games from the initial position, used as concrete sessions: in
    the first the white king walks to b8 while Black moves a knight to
    and fro; in the second both kings walk up and reach the last rank one
    after the other; in the third White moves a knight to and fro while
    the black king walks to g8. *)
Definition game_white_reaches_goal : list (string * string) :=
  [("a2", "a8"); ("f1", "e3"); ("a1", "a2"); ("e3", "f1");
   ("a2", "a3"); ("f1", "e3"); ("a3", "a4"); ("e3", "f1");
   ("a4", "a5"); ("f1", "e3"); ("a5", "a6"); ("e3", "f1");
   ("a6", "a7"); ("f1", "e3")].

Definition game_both_reach_goal : list (string * string) :=
  [("b2", "a3"); ("g2", "h3"); ("a1", "b2"); ("h1", "g2");
   ("b2", "b3"); ("g2", "g3"); ("b3", "b4"); ("g3", "g4");
   ("b4", "b5"); ("g4", "g5"); ("b5", "b6"); ("g5", "g6");
   ("b6", "b7"); ("g6", "g7"); ("b7", "b8")].

Definition game_black_reaches_goal : list (string * string) :=
  [("c1", "d3"); ("g2", "h3"); ("d3", "c1"); ("h1", "g2");
   ("c1", "d3"); ("g2", "g3"); ("d3", "c1"); ("g3", "g4");
   ("c1", "d3"); ("g4", "g5"); ("d3", "c1"); ("g5", "g6");
   ("c1", "d3"); ("g6", "f7"); ("d3", "c1")].

(** Every call of the sequence [moves] returns [True]. *)
Fixpoint all_accepted (self : ChessVar) (moves : list (string * string))
  : bool :=
  match moves with
  | [] => true
  | (curr_square, new_square) :: rest =>
      match snd (make_move self curr_square new_square) with
      | Ok true =>
          all_accepted (fst (make_move self curr_square new_square)) rest
      | _ => false
      end
  end.

(* ================================================================= *)
(** ** Basic facts *)

Lemma color_eqb_refl (c : color) : color_eqb c c = true.
Proof. destruct c; reflexivity. Qed.

Lemma color_eqb_eq (a b : color) : color_eqb a b = true <-> a = b.
Proof. destruct a, b; simpl; split; congruence. Qed.

Lemma game_state_eqb_eq (a b : game_state) : game_state_eqb a b = true <-> a = b.
Proof. destruct a, b; simpl; split; congruence. Qed.

Lemma square_text_inv (s : string) :
  square_text s = true ->
  exists f d rest r,
    s = String f (String d rest) /\ int d = Ok r /\ 0 <= r <= 9.
Proof.
  destruct s as [|f [|d rest]]; simpl; try discriminate.
  intros H. exists f, d, rest, (ord d - 48). split; [reflexivity|].
  unfold int. rewrite H.
  apply andb_true_iff in H as [H1%Z.leb_le H2%Z.leb_le]. split; [reflexivity|lia].
Qed.

Lemma square_text_rank (s : string) :
  square_text s = true -> exists r, rank_of s = Ok r /\ 0 <= r <= 9.
Proof.
  intros H. destruct (square_text_inv s H) as (f & d & rest & r & -> & Hd & Hr).
  exists r. unfold rank_of. simpl. now rewrite Hd.
Qed.

Lemma can_make_move_hypothetical_eq self board curr new :
  can_make_move self board curr new true
  = can_make_move_hypothetical self board curr new.
Proof. reflexivity. Qed.

Lemma get_piece_at_square_get board square :
  get_piece_at_square board square = dict_get board square.
Proof.
  unfold get_piece_at_square, dict_contains.
  destruct (dict_get board square); reflexivity.
Qed.

Lemma is_valid_square_total self s :
  square_text s = true -> exists v, is_valid_square self s = Ok v.
Proof.
  intros H. destruct (square_text_inv s H) as (f & d & rest & r & -> & Hd & Hr).
  unfold is_valid_square. simpl. rewrite Hd. simpl.
  repeat case_match; eauto.
Qed.

Lemma is_valid_square_text self s :
  is_valid_square self s = Ok true -> square_text s = true.
Proof.
  unfold is_valid_square, getitem.
  destruct s as [|f [|d rest]]; simpl; try discriminate.
  - case_match; discriminate.
  - case_match; [discriminate|]. unfold int.
    destruct ((48 <=? ord d) && (ord d <=? 57)); [reflexivity|discriminate].
Qed.

Lemma valid_move_total p a b :
  square_text a = true -> square_text b = true ->
  exists v, valid_move p a b = Ok v.
Proof.
  intros Ha Hb.
  destruct (square_text_inv a Ha) as (fa & da & resta & ra & -> & Hda & Hra).
  destruct (square_text_inv b Hb) as (fb & db & restb & rb & -> & Hdb & Hrb).
  destruct p; simpl;
    unfold King_valid_move, Knight_valid_move, Bishop_valid_move,
      Rook_valid_move, abs_rank_delta, py_and; simpl;
    repeat first [rewrite Hda | rewrite Hdb | progress simpl | case_match];
    eauto.
Qed.

Lemma King_valid_move_null s :
  square_text s = true -> King_valid_move s s = Ok true.
Proof.
  intros H. destruct (square_text_inv s H) as (f & d & rest & r & -> & Hd & Hr).
  unfold King_valid_move, abs_rank_delta. simpl. rewrite Hd. simpl.
  rewrite !Z.sub_diag. reflexivity.
Qed.

(* ================================================================= *)
(** ** The shape predicate of the bishop *)

Lemma Bishop_valid_move_coords a b fa ra fb rb :
  file_of a = Ok fa -> rank_of a = Ok ra ->
  file_of b = Ok fb -> rank_of b = Ok rb ->
  Bishop_valid_move a b = Ok (Z.abs (fa - fb) =? Z.abs (ra - rb)).
Proof.
  unfold file_of, rank_of, Bishop_valid_move, abs_rank_delta.
  destruct (getitem a 0) as [cf|]; simpl; [|discriminate].
  destruct (getitem a 1) as [cr|]; simpl; [|discriminate].
  destruct (getitem b 0) as [nf|]; simpl; [|discriminate].
  destruct (getitem b 1) as [nr|]; simpl; [|discriminate].
  intros [= <-] -> [= <-] ->. simpl.
  destruct (Z.abs (ord cf - ord nf) =? Z.abs (ra - rb)); reflexivity.
Qed.

(** C6 (as amended): on two square texts the bishop's [valid_move] holds
    exactly when the absolute file delta equals the absolute rank delta;
    the deltas are not required to be nonzero. *)
Theorem Bishop_valid_move_iff a b fa ra fb rb :
  file_of a = Ok fa -> rank_of a = Ok ra ->
  file_of b = Ok fb -> rank_of b = Ok rb ->
  (exists v, Bishop_valid_move a b = Ok v) /\
  (Bishop_valid_move a b = Ok true <-> Z.abs (fa - fb) = Z.abs (ra - rb)).
Proof.
  intros Hfa Hra Hfb Hrb.
  rewrite (Bishop_valid_move_coords a b fa ra fb rb) by assumption.
  split; [eauto|]. split.
  - intros [= H]. now apply Z.eqb_eq.
  - intros H. f_equal. now apply Z.eqb_eq.
Qed.

Lemma Bishop_valid_move_iff_witness :
  (exists v, Bishop_valid_move "c1" "e3" = Ok v) /\
  (Bishop_valid_move "c1" "e3" = Ok true <-> Z.abs (99 - 101) = Z.abs (1 - 3)).
Proof.
  apply (Bishop_valid_move_iff "c1" "e3" 99 1 101 3); reflexivity.
Defined.

(** The claim with "both deltas nonzero" fails on the null move. *)
Lemma Bishop_valid_move_null_counterexample :
  file_of "c3" = Ok 99 /\ rank_of "c3" = Ok 3 /\
  ~ (Bishop_valid_move "c3" "c3" = Ok true <->
     Z.abs (99 - 99) = Z.abs (3 - 3) /\ 99 - 99 <> 0 /\ 3 - 3 <> 0).
Proof.
  split; [reflexivity|]. split; [reflexivity|].
  intros [H _]. destruct (H eq_refl) as (_ & Hf & _). now apply Hf.
Qed.

(* ================================================================= *)
(** ** Guards of [can_make_move] *)

Lemma can_make_move_terminal self board curr new hypo :
  _state self <> UNFINISHED ->
  can_make_move self board curr new hypo = Ok false.
Proof.
  intros H. unfold can_make_move, can_make_move_with.
  destruct (game_state_eqb (_state self) UNFINISHED) eqn:E; [|reflexivity].
  apply game_state_eqb_eq in E. contradiction.
Qed.

Lemma can_make_move_with_true_unfinished rc self board curr new hypo :
  can_make_move_with rc self board curr new hypo = Ok true ->
  _state self = UNFINISHED.
Proof.
  unfold can_make_move_with.
  destruct (game_state_eqb (_state self) UNFINISHED) eqn:E; [|discriminate].
  intros _. now apply game_state_eqb_eq.
Qed.

(** A move from a square to itself is never accepted, whatever the text. *)
Lemma null_move_not_accepted self board s hypo :
  can_make_move self board s s hypo <> Ok true.
Proof.
  unfold can_make_move, can_make_move_with.
  rewrite !get_piece_at_square_get.
  destruct (negb (game_state_eqb (_state self) UNFINISHED)); [discriminate|].
  destruct (dict_get board s) as [p|]; [|discriminate].
  destruct (negb hypo && negb (color_eqb (get_color p) (_turn self)));
    [discriminate|].
  destruct (is_valid_square self s) as [[]|]; simpl; try discriminate.
  destruct (valid_move p s s) as [[]|]; simpl; try discriminate.
  rewrite color_eqb_refl. discriminate.
Qed.

(** C8: on every board and for every occupied square [s], the move from
    [s] to [s] is rejected by [can_make_move] in real and in hypothetical
    mode, although the king's [valid_move] accepts the zero-delta move. *)
Theorem null_move_rejected self board s hypo :
  square_text s = true ->
  dict_contains board s = true ->
  can_make_move self board s s hypo = Ok false /\ King_valid_move s s = Ok true.
Proof.
  intros Hs Hocc. split; [|now apply King_valid_move_null].
  pose proof (null_move_not_accepted self board s hypo) as Hne.
  unfold can_make_move, can_make_move_with in *.
  rewrite !get_piece_at_square_get in *.
  unfold dict_contains in Hocc.
  destruct (negb (game_state_eqb (_state self) UNFINISHED)); [reflexivity|].
  destruct (dict_get board s) as [p|]; [|discriminate].
  destruct (negb hypo && negb (color_eqb (get_color p) (_turn self)));
    [reflexivity|].
  destruct (is_valid_square_total self s Hs) as [v ->]. simpl.
  destruct v; [|reflexivity]. simpl.
  destruct (valid_move_total p s s Hs Hs) as [w ->]. simpl.
  destruct w; [|reflexivity]. simpl.
  now rewrite color_eqb_refl.
Qed.

Lemma null_move_rejected_witness :
  can_make_move new_ChessVar (_board new_ChessVar) "a1" "a1" false = Ok false
  /\ King_valid_move "a1" "a1" = Ok true.
Proof.
  apply (null_move_rejected new_ChessVar (_board new_ChessVar) "a1" false);
    reflexivity.
Defined.

(* ================================================================= *)
(** ** The outcome state machine *)

Lemma play_app self pre post :
  play self (pre ++ post) = play (play self pre) post.
Proof.
  revert self. induction pre as [|[c n] pre IH]; intros self; simpl; auto.
Qed.

Lemma make_move_rejected_state self curr new :
  can_make_move self (_board self) curr new false <> Ok true ->
  fst (make_move self curr new) = self.
Proof.
  unfold make_move. intros H.
  destruct (can_make_move self (_board self) curr new false) as [[]|];
    [contradiction| |]; reflexivity.
Qed.

Lemma make_move_terminal self curr new :
  _state self <> UNFINISHED -> make_move self curr new = (self, Ok false).
Proof.
  intros H. unfold make_move. now rewrite can_make_move_terminal.
Qed.

(** C7: once the state is terminal, [can_make_move] rejects every move in
    both modes, [make_move] returns [False] and changes nothing, no
    sequence of calls changes the session again; and a call of
    [make_move] changes the state only when it was [UNFINISHED]. *)
Theorem terminal_state_is_final self :
  _state self <> UNFINISHED ->
  (forall board curr new hypo,
      can_make_move self board curr new hypo = Ok false) /\
  (forall curr new, make_move self curr new = (self, Ok false)) /\
  (forall moves, play self moves = self) /\
  (forall other curr new,
      _state (fst (make_move other curr new)) <> _state other ->
      _state other = UNFINISHED).
Proof.
  intros H. repeat split.
  - intros. now apply can_make_move_terminal.
  - intros. now apply make_move_terminal.
  - induction moves as [|[c n] moves IH]; simpl; [reflexivity|].
    now rewrite make_move_terminal.
  - intros other curr new Hch.
    destruct (can_make_move other (_board other) curr new false)
      as [[]|] eqn:E.
    + now apply can_make_move_with_true_unfinished in E.
    + rewrite make_move_rejected_state in Hch by (rewrite E; discriminate).
      contradiction.
    + rewrite make_move_rejected_state in Hch by (rewrite E; discriminate).
      contradiction.
Qed.

Lemma terminal_state_is_final_witness :
  let over := set_state new_ChessVar BLACK_WON in
  (forall board curr new hypo,
      can_make_move over board curr new hypo = Ok false) /\
  (forall curr new, make_move over curr new = (over, Ok false)) /\
  (forall moves, play over moves = over) /\
  (forall other curr new,
      _state (fst (make_move other curr new)) <> _state other ->
      _state other = UNFINISHED).
Proof.
  apply (terminal_state_is_final (set_state new_ChessVar BLACK_WON)).
  simpl. discriminate.
Defined.

Lemma update_game_state_spec self self' over :
  _state self = UNFINISHED ->
  update_game_state self = (self', Ok over) ->
  exists wk bk w b,
    locate_kings (_board self) = Ok (wk, bk) /\
    at_highest_rank self wk = Ok w /\
    at_highest_rank self bk = Ok b /\
    self' = mkChessVar (_board self) (_board_size self) (_turn self)
              (snd (recomputed_state w b (_game_end_imminent self)))
              (fst (recomputed_state w b (_game_end_imminent self))) /\
    over = negb (game_state_eqb (_state self') UNFINISHED).
Proof.
  unfold update_game_state. intros Hst.
  destruct (locate_kings (_board self)) as [[wk bk]|]; [|discriminate].
  destruct (at_highest_rank self bk) as [b|] eqn:Eb; simpl; [|discriminate].
  destruct (at_highest_rank self wk) as [w|] eqn:Ew; simpl;
    [|destruct b; discriminate].
  destruct self as [bd sz t g st]. simpl in *. subst st.
  destruct b, w, g; simpl; rewrite ?Ew, ?Eb; simpl; intros [= <- <-];
    exists wk, bk; eexists; eexists;
    (split; [reflexivity|]); (split; [exact Ew|]); (split; [exact Eb|]);
    split; reflexivity.
Qed.

Lemma update_game_state_raise self self' e :
  update_game_state self = (self', Raise e) -> self' = self.
Proof.
  unfold update_game_state.
  destruct (locate_kings (_board self)) as [[wk bk]|]; [|congruence].
  destruct (at_highest_rank self bk) as [b|]; simpl; [|congruence].
  destruct (at_highest_rank self wk) as [w|]; simpl;
    [|destruct b; simpl; congruence].
  destruct b, w, (_game_end_imminent self); simpl; congruence.
Qed.

Lemma change_turns_fields self :
  _board (change_turns self) = _board self /\
  _board_size (change_turns self) = _board_size self /\
  _game_end_imminent (change_turns self) = _game_end_imminent self /\
  _state (change_turns self) = _state self /\
  _turn (change_turns self) <> _turn self.
Proof.
  unfold change_turns. destruct self as [bd sz [] g st]; simpl; repeat split;
    discriminate.
Qed.

(** What an accepted call of [make_move] does, step by step. *)
Lemma make_move_accepted self curr new self' r :
  can_make_move self (_board self) curr new false = Ok true ->
  make_move self curr new = (self', r) ->
  exists p,
    dict_get (_board self) curr = Some p /\
    update_game_state
      (change_turns (set_board self (relocate (_board self) curr new p)))
    = (self', match r with Ok _ => Ok (negb (game_state_eqb (_state self') UNFINISHED))
                         | Raise e => Raise e end) /\
    (forall b, r = Ok b -> b = true).
Proof.
  intros Hcan. unfold make_move. rewrite Hcan.
  pose proof Hcan as Hp. unfold can_make_move, can_make_move_with in Hp.
  rewrite !get_piece_at_square_get in *.
  destruct (negb (game_state_eqb (_state self) UNFINISHED)) eqn:Est;
    [discriminate|].
  destruct (dict_get (_board self) curr) as [p|] eqn:Ep; [|discriminate].
  clear Hp. unfold delitem, dict_contains. rewrite Ep.
  fold (relocate (_board self) curr new p).
  set (s1 := change_turns _).
  destruct (update_game_state s1) as [s2 [over|e]] eqn:Eu; intros [= <- <-];
    exists p; (split; [reflexivity|]).
  - split; [|congruence].
    assert (Hs1 : _state s1 = UNFINISHED).
    { subst s1. destruct (change_turns_fields
        (set_board self (relocate (_board self) curr new p))) as (_ & _ & _ & -> & _).
      simpl. apply game_state_eqb_eq.
      now destruct (game_state_eqb (_state self) UNFINISHED). }
    destruct (update_game_state_spec s1 s2 over Hs1 Eu)
      as (wk & bk & w & b & _ & _ & _ & _ & ->). exact Eu.
  - split; [exact Eu|discriminate].
Qed.

(* ================================================================= *)
(** ** The grace flag *)

Lemma update_game_state_keeps_flag self :
  _game_end_imminent self = true ->
  _game_end_imminent (fst (update_game_state self)) = true.
Proof.
  unfold update_game_state. intros H.
  destruct (locate_kings (_board self)) as [[wk bk]|]; [|exact H].
  destruct (at_highest_rank self bk) as [b|]; simpl; [|exact H].
  destruct (at_highest_rank self wk) as [w|]; simpl;
    [|destruct b; simpl; exact H].
  rewrite H. destruct b, w; simpl; auto.
Qed.

Lemma spawn_piece_keeps_flag self name square c :
  _game_end_imminent (fst (spawn_piece self name square c))
  = _game_end_imminent self.
Proof. unfold spawn_piece. repeat case_match; reflexivity. Qed.

Lemma make_move_keeps_flag self curr new :
  _game_end_imminent self = true ->
  _game_end_imminent (fst (make_move self curr new)) = true.
Proof.
  intros H.
  destruct (can_make_move self (_board self) curr new false) as [[]|] eqn:E.
  - destruct (make_move self curr new) as [self' r] eqn:Em.
    destruct (make_move_accepted _ _ _ _ _ E Em) as (p & _ & Hu & _).
    simpl. change self' with (fst (self', match r with
      | Ok _ => Ok (negb (game_state_eqb (_state self') UNFINISHED))
      | Raise e => Raise e end)).
    rewrite <- Hu. apply update_game_state_keeps_flag.
    now destruct (change_turns_fields
      (set_board self (relocate (_board self) curr new p)))
      as (_ & _ & -> & _).
  - rewrite make_move_rejected_state by (rewrite E; discriminate). exact H.
  - rewrite make_move_rejected_state by (rewrite E; discriminate). exact H.
Qed.

(** C10: the grace flag starts false; once true it stays true through
    [make_move], through any sequence of calls and through every other
    mutator of the class; and a call of [make_move] turns it from false to
    true only by an accepted move after which the white king stands on the
    farthest rank and the black king does not. *)
Theorem grace_flag_monotone :
  _game_end_imminent new_ChessVar = false /\
  (forall self curr new,
      _game_end_imminent self = true ->
      _game_end_imminent (fst (make_move self curr new)) = true) /\
  (forall self pre post,
      _game_end_imminent (play self pre) = true ->
      _game_end_imminent (play self (pre ++ post)) = true) /\
  (forall self name square c,
      _game_end_imminent self = true ->
      _game_end_imminent (change_turns self) = true /\
      _game_end_imminent (fst (update_game_state self)) = true /\
      _game_end_imminent (fst (spawn_piece self name square c)) = true) /\
  (forall self curr new,
      _game_end_imminent self = false ->
      _game_end_imminent (fst (make_move self curr new)) = true ->
      snd (make_move self curr new) = Ok true /\
      _state (fst (make_move self curr new)) = UNFINISHED /\
      exists wk bk,
        locate_kings (_board (fst (make_move self curr new))) = Ok (wk, bk) /\
        at_highest_rank self wk = Ok true /\
        at_highest_rank self bk = Ok false).
Proof.
  split; [reflexivity|]. split; [exact make_move_keeps_flag|]. split.
  { intros self pre post. rewrite play_app. generalize (play self pre).
    induction post as [|[c n] post IH]; intros s H; simpl; [exact H|].
    apply IH. now apply make_move_keeps_flag. }
  split.
  { intros self name square c H. split; [|split].
    - now destruct (change_turns_fields self) as (_ & _ & -> & _).
    - now apply update_game_state_keeps_flag.
    - now rewrite spawn_piece_keeps_flag. }
  intros self curr new Hf Ht.
  destruct (can_make_move self (_board self) curr new false) as [[]|] eqn:E.
  2,3: rewrite make_move_rejected_state in Ht by (rewrite E; discriminate);
       congruence.
  destruct (make_move self curr new) as [self' r] eqn:Em. simpl in *.
  destruct (make_move_accepted _ _ _ _ _ E Em) as (p & _ & Hu & Hr).
  pose proof (can_make_move_with_true_unfinished _ _ _ _ _ _ E) as Hst.
  set (s1 := change_turns _) in Hu.
  destruct (change_turns_fields
    (set_board self (relocate (_board self) curr new p)))
    as (Hb & Hsz & Hg & Hs & _). fold s1 in Hb, Hsz, Hg, Hs. simpl in *.
  destruct r as [over|e].
  - assert (Hs1 : _state s1 = UNFINISHED) by congruence.
    destruct (update_game_state_spec s1 self' _ Hs1 Hu)
      as (wk & bk & w & b & Hk & Hw & Hbk & -> & _).
    simpl in *. rewrite Hg, Hf in Ht.
    destruct w, b; simpl in Ht; try discriminate.
    split; [f_equal; now apply Hr|]. split; [now rewrite Hg, Hf|].
    exists wk, bk. unfold at_highest_rank in *. rewrite Hsz in Hw, Hbk.
    repeat split; assumption.
  - apply update_game_state_raise in Hu. subst self'. congruence.
Qed.

(* ================================================================= *)
(** ** Squares between two squares *)

Section Ranges.
Context {A : Type}.

Lemma length_range lo hi : List.length (range lo hi) = Z.to_nat (hi - lo).
Proof. unfold range. now rewrite length_map, length_seq. Qed.

Lemma in_range lo hi i : In i (range lo hi) <-> lo <= i < hi.
Proof.
  unfold range. rewrite in_map_iff. split.
  - intros (k & <- & Hk%in_seq). lia.
  - intros H. exists (Z.to_nat (i - lo)). split; [lia|].
    apply in_seq. lia.
Qed.

Lemma range_from_one lo hi :
  range lo hi = map (fun i => lo - 1 + i) (range 1 (hi - lo + 1)).
Proof.
  unfold range. rewrite map_map.
  replace (hi - lo + 1 - 1) with (hi - lo) by lia.
  apply map_ext. intros k. lia.
Qed.

Lemma rev_map_seq (f : nat -> A) n :
  rev (map f (seq 0 n)) = map (fun i => f (n - 1 - i)%nat) (seq 0 n).
Proof.
  induction n as [|n IH]; [reflexivity|].
  rewrite seq_S at 1. rewrite map_app, rev_app_distr. simpl.
  rewrite IH, <- seq_shift, map_map. f_equal.
  - f_equal. lia.
  - apply map_ext. intros i. f_equal. lia.
Qed.

Lemma rev_map_range (f : Z -> A) lo hi :
  rev (map f (range lo hi))
  = map (fun i => f (hi - i)) (range 1 (hi - lo + 1)).
Proof.
  unfold range. rewrite !map_map, rev_map_seq.
  replace (hi - lo + 1 - 1) with (hi - lo) by lia.
  apply map_ext_in. intros k Hk%in_seq. f_equal. lia.
Qed.

(** A range between two bounds, turned round when the second bound is
    the smaller one, lists the values from the first bound toward the
    second. *)
Lemma range_toward (f : Z -> A) x y :
  (if y <? x
   then rev (map f (range (Z.min x y + 1) (Z.max x y)))
   else map f (range (Z.min x y + 1) (Z.max x y)))
  = map (fun i => f (x + Z.sgn (y - x) * i)) (range 1 (Z.abs (y - x))).
Proof.
  destruct (Z.ltb_spec y x) as [H|H].
  - rewrite rev_map_range.
    replace (Z.max x y - (Z.min x y + 1) + 1) with (Z.abs (y - x)) by lia.
    apply map_ext. intros i. f_equal. lia.
  - rewrite range_from_one, map_map.
    replace (Z.max x y - (Z.min x y + 1) + 1) with (Z.abs (y - x)) by lia.
    apply map_ext_in. intros i Hi%in_range. f_equal. nia.
Qed.

Lemma range_ascending (f : Z -> A) x y :
  map f (range (Z.min x y + 1) (Z.max x y))
  = if y <? x
    then rev (map (fun i => f (x + Z.sgn (y - x) * i))
                (range 1 (Z.abs (y - x))))
    else map (fun i => f (x + Z.sgn (y - x) * i)) (range 1 (Z.abs (y - x))).
Proof.
  rewrite <- range_toward. destruct (y <? x); [|reflexivity].
  now rewrite rev_involutive.
Qed.
End Ranges.

Lemma pair_up_shift c cs n ns idxs :
  pair_up (c :: cs) (n :: ns) (map S idxs) = pair_up cs ns idxs.
Proof.
  induction idxs as [|i idxs IH]; simpl; [reflexivity|].
  now rewrite IH.
Qed.

Lemma pair_up_map {A : Type} (f g : A -> string) (l : list A) :
  pair_up (map f l) (map g l) (seq 0 (List.length (map f l)))
  = Ok (map (fun i => String.append (f i) (g i)) l).
Proof.
  induction l as [|a l IH]; simpl; [reflexivity|].
  rewrite <- seq_shift, pair_up_shift, IH. reflexivity.
Qed.

Lemma path_toward_file f ra rb :
  path_toward f ra f rb
  = map (fun i => square f (ra + Z.sgn (rb - ra) * i))
        (range 1 (Z.abs (rb - ra))).
Proof.
  unfold path_toward. rewrite Z.sub_diag. simpl Z.abs.
  rewrite Z.max_r by lia. apply map_ext. intros i. f_equal. lia.
Qed.

Lemma path_toward_rank fa fb r :
  path_toward fa r fb r
  = map (fun i => square (fa + Z.sgn (fb - fa) * i) r)
        (range 1 (Z.abs (fb - fa))).
Proof.
  unfold path_toward. rewrite Z.sub_diag. simpl Z.abs.
  rewrite Z.max_l by lia. apply map_ext. intros i. f_equal. lia.
Qed.

Lemma length_path_toward fa ra fb rb :
  List.length (path_toward fa ra fb rb)
  = Z.to_nat (Z.max (Z.abs (fb - fa)) (Z.abs (rb - ra)) - 1).
Proof. unfold path_toward. now rewrite length_map, length_range. Qed.

Lemma get_squares_between_listed a b fa ra fb rb :
  file_of a = Ok fa -> rank_of a = Ok ra ->
  file_of b = Ok fb -> rank_of b = Ok rb ->
  get_squares_between a b = Ok (squares_between_listed fa ra fb rb).
Proof.
  unfold file_of, rank_of, get_squares_between.
  destruct (getitem a 0) as [c0|]; simpl; [|discriminate].
  destruct (getitem a 1) as [c1|]; simpl; [|discriminate].
  destruct (getitem b 0) as [n0|]; simpl; [|discriminate].
  destruct (getitem b 1) as [n1|]; simpl; [|discriminate].
  intros [= <-] -> [= <-] ->. simpl.
  set (fa := ord c0). set (fb := ord n0).
  unfold squares_between_listed, aligned, straight_descending.
  destruct (Z.eqb_spec (Z.abs (fa - fb)) 0) as [Hf|Hf].
  { assert (fb = fa) as -> by lia.
    rewrite Z.eqb_refl, Z.ltb_irrefl, andb_false_r, orb_false_r. simpl.
    rewrite path_toward_file.
    rewrite (range_ascending (fun n => String.append (chr fa) (str n)) ra rb).
    reflexivity. }
  destruct (Z.eqb_spec fa fb) as [->|Hne]; [lia|]. simpl.
  destruct (Z.eqb_spec (Z.abs (ra - rb)) 0) as [Hr|Hr].
  { assert (rb = ra) as -> by lia.
    rewrite Z.eqb_refl. simpl. rewrite path_toward_rank.
    rewrite (range_ascending (fun c => String.append (chr c) (str ra)) fa fb).
    reflexivity. }
  destruct (Z.eqb_spec ra rb) as [->|Hrne]; [lia|]. simpl.
  destruct (Z.eqb_spec (Z.abs (fa - fb)) (Z.abs (ra - rb))) as [Hd|Hd].
  - destruct (Z.eqb_spec (Z.abs (fb - fa)) (Z.abs (rb - ra))) as [_|]; [|lia].
    rewrite (range_toward str ra rb), (range_toward chr fa fb).
    unfold path_toward.
    replace (Z.max (Z.abs (fb - fa)) (Z.abs (rb - ra)))
      with (Z.abs (fb - fa)) by lia.
    replace (Z.abs (rb - ra)) with (Z.abs (fb - fa)) by lia.
    apply (pair_up_map (fun i => chr (fa + Z.sgn (fb - fa) * i))
                       (fun i => str (ra + Z.sgn (rb - ra) * i))).
  - destruct (Z.eqb_spec (Z.abs (fb - fa)) (Z.abs (rb - ra))); [lia|].
    reflexivity.
Qed.

(** C5 (as amended): for two square texts with files [fa], [fb] and ranks
    [ra], [rb], [get_squares_between] returns the empty list when the
    squares are not on one file, rank or diagonal; when they are, it
    returns the squares strictly between them, [max(|dfile|,|drank|) - 1]
    of them when the squares differ, in the order of the walk from the
    first to the second on a diagonal, and in ascending order of rank or
    file along a file or rank (the reverse of the walk when the move goes
    down or to the left). *)
Theorem get_squares_between_spec a b fa ra fb rb :
  file_of a = Ok fa -> rank_of a = Ok ra ->
  file_of b = Ok fb -> rank_of b = Ok rb ->
  (aligned fa ra fb rb = false -> get_squares_between a b = Ok []) /\
  (aligned fa ra fb rb = true ->
   exists l,
     get_squares_between a b = Ok l /\
     (fa <> fb \/ ra <> rb ->
      Z.of_nat (List.length l)
      = Z.max (Z.abs (fb - fa)) (Z.abs (rb - ra)) - 1) /\
     l = (if straight_descending fa ra fb rb
          then rev (path_toward fa ra fb rb)
          else path_toward fa ra fb rb)).
Proof.
  intros Hfa Hra Hfb Hrb.
  rewrite (get_squares_between_listed a b fa ra fb rb) by assumption.
  unfold squares_between_listed. split; intros ->; [reflexivity|].
  eexists. split; [reflexivity|]. split; [|reflexivity].
  intros Hne.
  assert (Hlen : Z.of_nat (List.length (path_toward fa ra fb rb))
                 = Z.max (Z.abs (fb - fa)) (Z.abs (rb - ra)) - 1)
    by (rewrite length_path_toward; lia).
  destruct (straight_descending fa ra fb rb); [rewrite length_rev|]; exact Hlen.
Qed.

Lemma get_squares_between_spec_witness :
  (aligned 104 1 101 4 = false -> get_squares_between "h1" "e4" = Ok []) /\
  (aligned 104 1 101 4 = true ->
   exists l,
     get_squares_between "h1" "e4" = Ok l /\
     (104 <> 101 \/ 1 <> 4 ->
      Z.of_nat (List.length l)
      = Z.max (Z.abs (101 - 104)) (Z.abs (4 - 1)) - 1) /\
     l = (if straight_descending 104 1 101 4
          then rev (path_toward 104 1 101 4)
          else path_toward 104 1 101 4)).
Proof.
  apply (get_squares_between_spec "h1" "e4" 104 1 101 4); reflexivity.
Defined.

(** Down a file the squares are listed upwards, not in walking order. *)
Lemma get_squares_between_order_counterexample :
  file_of "a5" = Ok 97 /\ rank_of "a5" = Ok 5 /\
  file_of "a2" = Ok 97 /\ rank_of "a2" = Ok 2 /\
  get_squares_between "a5" "a2" = Ok ["a3"; "a4"] /\
  squares_between_claimed 97 5 97 2 = ["a4"; "a3"] /\
  get_squares_between "a5" "a2" <> Ok (squares_between_claimed 97 5 97 2).
Proof. repeat split; try reflexivity. discriminate. Qed.

(* ================================================================= *)
(** ** The hypothetical board and the live board *)

Lemma preserves_refl h : preserves h h.
Proof. intros l _. reflexivity. Qed.

Lemma preserves_trans h1 h2 h3 :
  preserves h1 h2 -> preserves h2 h3 -> preserves h1 h3.
Proof.
  intros H12 H23 l Hl. rewrite H23, H12; auto. now rewrite H12.
Qed.

Lemma fresh_loc_not_allocated (h : gmap loc py_dict) l :
  is_Some (h !! l) -> l <> fresh (dom h).
Proof.
  intros Hl%elem_of_dom ->. now apply (is_fresh (dom h)).
Qed.

Lemma deref_insert_eq (h : gmap loc py_dict) l d : deref (<[l := d]> h) l = d.
Proof. unfold deref. now rewrite lookup_insert_eq. Qed.

Lemma deref_insert_ne (h : gmap loc py_dict) l l' d :
  l <> l' -> deref (<[l := d]> h) l' = deref h l'.
Proof. intros H. unfold deref. now rewrite lookup_insert_ne. Qed.

Lemma preserves_insert_fresh (h h' : gmap loc py_dict) d :
  preserves h h' -> preserves h (<[fresh (dom h) := d]> h').
Proof.
  intros H l Hl. rewrite lookup_insert_ne; [now apply H|].
  intros E. now apply (fresh_loc_not_allocated h l).
Qed.

Lemma preserves_deref h h' l :
  preserves h h' -> is_Some (h !! l) -> deref h' l = deref h l.
Proof. intros H Hl. unfold deref. now rewrite H. Qed.

Lemma snapshot_preserved h h' self :
  preserves h h' -> is_Some (h !! board_loc self) ->
  snapshot h' self = snapshot h self.
Proof.
  intros H Hl. unfold snapshot. now rewrite (preserves_deref h h').
Qed.

(** The method on the store computes what the method on values computes,
    and leaves every dictionary that existed before as it was. *)
Lemma results_in_check_ref_spec h self curr new :
  is_Some (h !! board_loc self) ->
  preserves h (fst (results_in_check_ref h self curr new)) /\
  snd (results_in_check_ref h self curr new)
  = results_in_check (snapshot h self) curr new.
Proof.
  intros Hlive.
  pose proof (fresh_loc_not_allocated h _ Hlive) as Hne.
  unfold results_in_check_ref, results_in_check, dict_copy, ref_delitem,
    ref_setitem.
  set (l' := fresh (dom h)) in *.
  rewrite deref_insert_eq.
  rewrite (deref_insert_ne h l' (board_loc self)) by congruence.
  simpl _board.
  destruct (delitem (deref h (board_loc self)) curr) as [d|e]; simpl.
  2: { split; [|reflexivity]. apply preserves_insert_fresh, preserves_refl. }
  destruct (get_piece_at_square (deref h (board_loc self)) curr) as [p|]; simpl.
  2: { split; [|reflexivity].
       do 2 apply preserves_insert_fresh. apply preserves_refl. }
  split.
  - do 3 apply preserves_insert_fresh. apply preserves_refl.
  - rewrite !deref_insert_eq. f_equal.
    apply snapshot_preserved; [|assumption].
    do 3 apply preserves_insert_fresh. apply preserves_refl.
Qed.

(** C9: the hypothetical board of [results_in_check] is a dictionary of
    its own.  Whatever the call does (return or raise), the live board
    and every other dictionary that existed before the call have the same
    entries after it; only a location that was not allocated before can
    differ. *)
Theorem results_in_check_leaves_live_board h self curr new :
  is_Some (h !! board_loc self) ->
  let h' := fst (results_in_check_ref h self curr new) in
  h' !! board_loc self = h !! board_loc self /\
  snapshot h' self = snapshot h self /\
  (forall l, is_Some (h !! l) -> h' !! l = h !! l) /\
  (forall l, h' !! l <> h !! l -> l = fresh (dom h)).
Proof.
  intros Hlive h'.
  destruct (results_in_check_ref_spec h self curr new Hlive) as [Hpres _].
  fold h' in Hpres. split; [now apply Hpres|].
  split; [now apply snapshot_preserved|]. split; [exact Hpres|].
  intros l Hl. destruct (decide (l = fresh (dom h))) as [|Hne]; [assumption|].
  exfalso. apply Hl. subst h'.
  unfold results_in_check_ref, dict_copy, ref_delitem, ref_setitem.
  rewrite deref_insert_eq.
  destruct (delitem (deref h (board_loc self)) curr) as [d|e]; simpl.
  2: { now rewrite lookup_insert_ne. }
  destruct (get_piece_at_square _ curr) as [p|]; simpl;
    now rewrite !lookup_insert_ne.
Qed.

Lemma results_in_check_leaves_live_board_witness :
  let h : gmap loc py_dict := {[ 1%positive := _board new_ChessVar ]} in
  let self := mkChessVarObj 1%positive 8 White false UNFINISHED in
  let h' := fst (results_in_check_ref h self "c1" "d3") in
  h' !! board_loc self = h !! board_loc self /\
  snapshot h' self = snapshot h self /\
  (forall l, is_Some (h !! l) -> h' !! l = h !! l) /\
  (forall l, h' !! l <> h !! l -> l = fresh (dom h)).
Proof.
  intros h self.
  apply (results_in_check_leaves_live_board h self "c1" "d3").
  vm_compute. eauto.
Defined.

(** Without [.copy()] the live board would lose the moved piece: the
    store does tell an alias from a copy. *)
Lemma results_in_check_aliased_changes_live_board :
  let h : gmap loc py_dict := {[ 1%positive := _board new_ChessVar ]} in
  let self := mkChessVarObj 1%positive 8 White false UNFINISHED in
  dict_get (deref h 1%positive) "c1" = Some (Knight White) /\
  dict_get (deref (fst (results_in_check_aliased h self "c1" "d3")) 1%positive)
    "c1" = None /\
  dict_get (deref (fst (results_in_check_ref h self "c1" "d3")) 1%positive)
    "c1" = Some (Knight White).
Proof. vm_compute. auto. Qed.

(* ================================================================= *)
(** ** The engine on the store *)

Lemma can_make_move_ref_spec h self board curr new hypo :
  is_Some (h !! board_loc self) ->
  preserves h (fst (can_make_move_ref h self board curr new hypo)) /\
  snd (can_make_move_ref h self board curr new hypo)
  = can_make_move (snapshot h self) (deref h board) curr new hypo.
Proof.
  intros Hlive.
  unfold can_make_move_ref, can_make_move, can_make_move_with.
  simpl _state. simpl _turn.
  assert (Hdone : forall r : result bool,
             preserves h (fst (h, r)) /\ snd (h, r) = r)
    by (intros r; split; [apply preserves_refl|reflexivity]).
  destruct (negb (game_state_eqb (obj_state self) UNFINISHED)); [apply Hdone|].
  destruct (get_piece_at_square (deref h board) curr) as [p|]; [|apply Hdone].
  destruct (negb hypo && negb (color_eqb (get_color p) (obj_turn self)));
    [apply Hdone|].
  destruct (is_valid_square (snapshot h self) new) as [[]|]; simpl;
    try apply Hdone.
  destruct (valid_move p curr new) as [[]|]; simpl; try apply Hdone.
  destruct (match get_piece_at_square (deref h board) new with
            | Some target => color_eqb (get_color target) (get_color p)
            | None => false
            end); [apply Hdone|].
  destruct (if negb (can_jump p)
            then let* between := get_squares_between curr new
                 in Ok (existsb (dict_contains (deref h board)) between)
            else Ok false) as [[]|]; simpl; try apply Hdone.
  destruct hypo; simpl; [apply Hdone|].
  destruct (results_in_check_ref_spec h self curr new Hlive) as [Hp Hr].
  destruct (results_in_check_ref h self curr new) as [h' r]. simpl in *.
  rewrite <- Hr. destruct r as [[]|]; simpl; auto.
Qed.

Lemma update_game_state_board self :
  _board (fst (update_game_state self)) = _board self.
Proof.
  unfold update_game_state.
  destruct (locate_kings (_board self)) as [[wk bk]|]; [|reflexivity].
  destruct (at_highest_rank self bk) as [b|]; simpl; [|reflexivity].
  destruct (at_highest_rank self wk) as [w|]; simpl;
    [|destruct b; reflexivity].
  destruct b, w, (_game_end_imminent self); reflexivity.
Qed.

Lemma delitem_ok d k d' :
  delitem d k = Ok d' ->
  d' = dict_remove d k /\ exists p, dict_get d k = Some p.
Proof.
  unfold delitem, dict_contains.
  destruct (dict_get d k) as [p|]; [|discriminate].
  intros [= <-]. eauto.
Qed.

Lemma snapshot_store_fields h self v :
  _board v = deref h (board_loc self) ->
  snapshot h (store_fields self v) = v.
Proof. destruct v. unfold snapshot, store_fields. simpl. now intros ->. Qed.

Lemma make_move_ref_spec h self curr new h' self' r :
  is_Some (h !! board_loc self) ->
  make_move_ref h self curr new = (h', self', r) ->
  make_move (snapshot h self) curr new = (snapshot h' self', r) /\
  board_loc self' = board_loc self /\
  (forall l, l <> board_loc self -> is_Some (h !! l) -> h' !! l = h !! l).
Proof.
  intros Hlive. unfold make_move_ref, make_move.
  destruct (can_make_move_ref_spec h self (board_loc self) curr new false Hlive)
    as [Hp Hr].
  destruct (can_make_move_ref h self (board_loc self) curr new false)
    as [h1 r1]. simpl in Hp, Hr.
  change (_board (snapshot h self)) with (deref h (board_loc self)).
  rewrite <- Hr.
  pose proof (snapshot_preserved h h1 self Hp Hlive) as Hsnap.
  pose proof (preserves_deref h h1 _ Hp Hlive) as Hd.
  destruct r1 as [[]|e].
  2,3: intros [= <- <- <-]; rewrite Hsnap; repeat split; auto.
  unfold ref_delitem, ref_setitem. rewrite Hd.
  destruct (delitem (deref h (board_loc self)) curr) as [d|e] eqn:Edel.
  2: { intros [= <- <- <-]. rewrite Hsnap. repeat split; auto. }
  destruct (delitem_ok _ _ _ Edel) as (-> & p & Hget).
  rewrite get_piece_at_square_get, Hget. rewrite !deref_insert_eq.
  set (h3 := <[board_loc self := setitem _ new p]> _).
  assert (Hs3 : snapshot h3 self
                = set_board (snapshot h self)
                    (setitem (dict_remove (deref h (board_loc self)) curr) new p)).
  { unfold snapshot, set_board. simpl. subst h3. now rewrite deref_insert_eq. }
  rewrite Hs3.
  set (s1 := change_turns _).
  assert (Hb1 : _board s1 = deref h3 (board_loc self)).
  { subst s1. destruct (change_turns_fields (set_board (snapshot h self)
      (setitem (dict_remove (deref h (board_loc self)) curr) new p)))
      as (-> & _). simpl. subst h3. now rewrite deref_insert_eq. }
  rewrite (snapshot_store_fields h3 self s1 Hb1).
  pose proof (update_game_state_board s1) as Hub.
  destruct (update_game_state s1) as [v over]. simpl in Hub.
  assert (Hv : snapshot h3 (store_fields (store_fields self s1) v) = v).
  { apply snapshot_store_fields. simpl. congruence. }
  assert (Hframe : forall l, l <> board_loc self -> is_Some (h !! l) ->
                             h3 !! l = h !! l).
  { intros l Hl Hsome. subst h3. rewrite !lookup_insert_ne by congruence.
    now apply Hp. }
  destruct over; intros [= <- <- <-]; rewrite Hv; repeat split; auto.
Qed.

(** C3: a call of [make_move] answers [False] exactly when
    [can_make_move] rejects the move, and then nothing has changed: the
    attributes of the engine (turn, state, grace flag, board size and the
    board reference) are the same, and the live board and every other
    dictionary of the store hold the same entries as before the call. *)
Theorem rejected_move_changes_nothing h self curr new h' self' r :
  is_Some (h !! board_loc self) ->
  make_move_ref h self curr new = (h', self', r) ->
  (snd (can_make_move_ref h self (board_loc self) curr new false) = Ok false
   <-> r = Ok false) /\
  (r = Ok false ->
   self' = self /\ preserves h h' /\ snapshot h' self' = snapshot h self /\
   make_move (snapshot h self) curr new = (snapshot h self, Ok false)).
Proof.
  intros Hlive Hmm.
  destruct (make_move_ref_spec _ _ _ _ _ _ _ Hlive Hmm) as (Hpure & _ & _).
  unfold make_move_ref in Hmm.
  destruct (can_make_move_ref_spec h self (board_loc self) curr new false Hlive)
    as [Hp _].
  destruct (can_make_move_ref h self (board_loc self) curr new false)
    as [h1 [[]|e]]; simpl in *.
  - assert (Hr : r <> Ok false).
    { destruct (ref_delitem h1 (board_loc self) curr) as [h2 [u|e]];
        [|now inversion Hmm].
      destruct (get_piece_at_square _ curr); [|now inversion Hmm].
      destruct (update_game_state _) as [v [over|e]]; now inversion Hmm. }
    split; [split; [discriminate|contradiction]|contradiction].
  - inversion Hmm; subst. split; [tauto|]. intros _.
    pose proof (snapshot_preserved h h' self' Hp Hlive) as Hs.
    rewrite Hs in Hpure. auto.
  - inversion Hmm; subst. split; [split; discriminate|discriminate].
Qed.

Lemma rejected_move_changes_nothing_witness :
  let h : gmap loc py_dict := {[ 1%positive := _board new_ChessVar ]} in
  let self := mkChessVarObj 1%positive 8 White false UNFINISHED in
  let res := make_move_ref h self "a1" "a2" in
  (snd (can_make_move_ref h self (board_loc self) "a1" "a2" false) = Ok false
   <-> snd res = Ok false) /\
  (snd res = Ok false ->
   snd (fst res) = self /\ preserves h (fst (fst res)) /\
   snapshot (fst (fst res)) (snd (fst res)) = snapshot h self /\
   make_move (snapshot h self) "a1" "a2" = (snapshot h self, Ok false)).
Proof.
  intros h self res.
  apply (rejected_move_changes_nothing h self "a1" "a2").
  - vm_compute. eauto.
  - subst res. now destruct (make_move_ref h self "a1" "a2") as [[? ?] ?].
Defined.

(* ================================================================= *)
(** ** Dictionaries with distinct keys *)

Lemma dict_get_in d k p : dict_get d k = Some p -> In (k, p) d.
Proof.
  induction d as [|[k' v] d IH]; simpl; [discriminate|].
  destruct (String.eqb_spec k k') as [->|Hne].
  - intros [= ->]. now left.
  - intros H. right. now apply IH.
Qed.

Lemma in_dict_get d k p :
  List.NoDup (map fst d) -> In (k, p) d -> dict_get d k = Some p.
Proof.
  induction d as [|[k' v] d IH]; simpl; [contradiction|].
  intros Hnd [[= -> ->]|Hin].
  - now rewrite String.eqb_refl.
  - apply List.NoDup_cons_iff in Hnd as [Hk Hnd].
    destruct (String.eqb_spec k k') as [->|Hne]; [|now apply IH].
    exfalso. apply Hk. apply in_map_iff. now exists (k', p).
Qed.

Lemma in_dict_remove d k k' p : In (k', p) (dict_remove d k) -> In (k', p) d.
Proof.
  induction d as [|[k0 v] d IH]; simpl; [contradiction|].
  destruct (String.eqb k k0); [now right|].
  intros [H|H]; [now left|right; now apply IH].
Qed.

Lemma dict_remove_keeps d k k' p :
  k' <> k -> In (k', p) d -> In (k', p) (dict_remove d k).
Proof.
  intros Hne. induction d as [|[k0 v] d IH]; simpl; [contradiction|].
  destruct (String.eqb_spec k k0) as [->|Hk].
  - intros [[= -> ->]|H]; [contradiction|assumption].
  - intros [H|H]; [now left|right; now apply IH].
Qed.

Lemma in_setitem d k v k' p :
  In (k', p) (setitem d k v) -> (k' = k /\ p = v) \/ In (k', p) d.
Proof.
  induction d as [|[k0 v0] d IH]; simpl.
  - intros [[= -> ->]|[]]. now left.
  - destruct (String.eqb_spec k k0) as [->|Hk]; simpl.
    + intros [[= -> ->]|H]; [now left|right; now right].
    + intros [H|H]; [right; now left|].
      destruct (IH H) as [?|?]; [now left|right; now right].
Qed.

Lemma setitem_in d k v : In (k, v) (setitem d k v).
Proof.
  induction d as [|[k0 v0] d IH]; simpl; [now left|].
  destruct (String.eqb_spec k k0) as [->|Hk]; simpl; [now left|now right].
Qed.

Lemma setitem_keeps d k v k' p :
  k' <> k -> In (k', p) d -> In (k', p) (setitem d k v).
Proof.
  intros Hne. induction d as [|[k0 v0] d IH]; simpl; [contradiction|].
  destruct (String.eqb_spec k k0) as [->|Hk]; simpl.
  - intros [[= -> ->]|H]; [contradiction|now right].
  - intros [H|H]; [now left|right; now apply IH].
Qed.

Lemma NoDup_dict_remove d k :
  List.NoDup (map fst d) -> List.NoDup (map fst (dict_remove d k)).
Proof.
  induction d as [|[k0 v] d IH]; simpl; [trivial|].
  intros [Hk Hnd]%List.NoDup_cons_iff.
  destruct (String.eqb k k0); [assumption|]. simpl.
  apply List.NoDup_cons; [|now apply IH].
  intros (x & Hx & Hin)%in_map_iff. destruct x as [k1 v1]. simpl in Hx. subst k1.
  apply Hk. apply in_map_iff. exists (k0, v1). split; [reflexivity|].
  now apply in_dict_remove in Hin.
Qed.

Lemma NoDup_setitem d k v :
  List.NoDup (map fst d) -> List.NoDup (map fst (setitem d k v)).
Proof.
  induction d as [|[k0 v0] d IH]; simpl.
  - intros _. apply List.NoDup_cons; [intros []|constructor].
  - intros [Hk Hnd]%List.NoDup_cons_iff.
    destruct (String.eqb_spec k k0) as [->|Hne]; simpl.
    + now apply List.NoDup_cons.
    + apply List.NoDup_cons; [|now apply IH].
      intros (x & Hx & Hin)%in_map_iff. destruct x as [k1 v1].
      simpl in Hx. subst k1.
      apply in_setitem in Hin as [[-> _]|Hin]; [contradiction|].
      apply Hk. apply in_map_iff. now exists (k0, v1).
Qed.

Lemma NoDup_relocate d curr new p :
  List.NoDup (map fst d) -> List.NoDup (map fst (relocate d curr new p)).
Proof. intros H. now apply NoDup_setitem, NoDup_dict_remove. Qed.

Lemma in_relocate d curr new p k q :
  In (k, q) (relocate d curr new p) -> (k = new /\ q = p) \/ In (k, q) d.
Proof.
  intros [H|H]%in_setitem; [now left|right]. now apply in_dict_remove in H.
Qed.

Lemma relocate_keeps d curr new p k q :
  k <> curr -> k <> new -> In (k, q) d -> In (k, q) (relocate d curr new p).
Proof.
  intros Hc Hn H. now apply setitem_keeps, dict_remove_keeps.
Qed.

(* ================================================================= *)
(** ** Locating the kings *)

Lemma is_white_king p :
  is_king p && color_eqb (get_color p) White = true <-> p = King White.
Proof. destruct p as [[]|[]|[]|[]]; simpl; split; congruence. Qed.

Lemma is_black_king p :
  is_king p && color_eqb (get_color p) Black = true <-> p = King Black.
Proof. destruct p as [[]|[]|[]|[]]; simpl; split; congruence. Qed.

Lemma locate_kings_loop_found items w b :
  (forall sq, fst (locate_kings_loop items w b) = Some sq ->
              w = Some sq \/ In (sq, King White) items) /\
  (forall sq, snd (locate_kings_loop items w b) = Some sq ->
              b = Some sq \/ In (sq, King Black) items).
Proof.
  revert w b. induction items as [|[k p] items IH]; intros w b; simpl.
  - split; intros sq H; now left.
  - destruct (IH (if is_king p && color_eqb (get_color p) White
                  then Some k else w)
                 (if is_king p && color_eqb (get_color p) Black
                  then Some k else b)) as [IHw IHb].
    split; intros sq H.
    + destruct (IHw sq H) as [Hw|Hin]; [|right; now right].
      destruct (is_king p && color_eqb (get_color p) White) eqn:E;
        [|now left].
      apply is_white_king in E. subst p. injection Hw as ->. right. now left.
    + destruct (IHb sq H) as [Hb|Hin]; [|right; now right].
      destruct (is_king p && color_eqb (get_color p) Black) eqn:E;
        [|now left].
      apply is_black_king in E. subst p. injection Hb as ->. right. now left.
Qed.

Lemma locate_kings_loop_finds items w b :
  (is_Some w \/ (exists sq, In (sq, King White) items) ->
   is_Some (fst (locate_kings_loop items w b))) /\
  (is_Some b \/ (exists sq, In (sq, King Black) items) ->
   is_Some (snd (locate_kings_loop items w b))).
Proof.
  revert w b. induction items as [|[k p] items IH]; intros w b; simpl.
  - split; (intros [H|[sq []]]; exact H).
  - destruct (IH (if is_king p && color_eqb (get_color p) White
                  then Some k else w)
                 (if is_king p && color_eqb (get_color p) Black
                  then Some k else b)) as [IHw IHb].
    split; intros H.
    + apply IHw. destruct H as [H|[sq [[= -> ->]|H]]].
      * left. destruct (is_king p && color_eqb (get_color p) White);
          [eauto|assumption].
      * left. simpl. eauto.
      * right. eauto.
    + apply IHb. destruct H as [H|[sq [[= -> ->]|H]]].
      * left. destruct (is_king p && color_eqb (get_color p) Black);
          [eauto|assumption].
      * left. simpl. eauto.
      * right. eauto.
Qed.

Lemma locate_kings_in board wk bk :
  locate_kings board = Ok (wk, bk) ->
  In (wk, King White) board /\ In (bk, King Black) board.
Proof.
  unfold locate_kings.
  destruct (locate_kings_loop_found board None None) as [Hw Hb].
  destruct (locate_kings_loop board None None) as [[w|] [b|]];
    try discriminate.
  intros [= -> ->]. simpl in *.
  destruct (Hw wk eq_refl) as [?|?]; [discriminate|].
  destruct (Hb bk eq_refl) as [?|?]; [discriminate|]. auto.
Qed.

Lemma locate_kings_total board kw kb :
  In (kw, King White) board -> In (kb, King Black) board ->
  exists wk bk, locate_kings board = Ok (wk, bk).
Proof.
  intros Hw Hb. unfold locate_kings.
  destruct (locate_kings_loop_finds board None None) as [Fw Fb].
  destruct (locate_kings_loop board None None) as [w b]. simpl in *.
  destruct Fw as [wk ->]; [right; eauto|].
  destruct Fb as [bk ->]; [right; eauto|]. eauto.
Qed.

(* ================================================================= *)
(** ** The scan for a check *)

Lemma check_loop_false self hyp wk bk items :
  check_loop self hyp wk bk items = Ok false ->
  forall sq q, In (sq, q) items ->
    (get_color q = Black ->
     can_make_move_hypothetical self hyp sq wk = Ok false) /\
    (get_color q = White ->
     can_make_move_hypothetical self hyp sq bk = Ok false).
Proof.
  induction items as [|[k p] items IH]; simpl; [intros _ sq q []|].
  intros H sq q [[= -> ->]|Hin].
  - destruct (get_color q); simpl in H.
    + destruct (can_make_move_hypothetical self hyp sq bk) as [[]|];
        simpl in H; try discriminate. split; [discriminate|reflexivity].
    + destruct (can_make_move_hypothetical self hyp sq wk) as [[]|];
        simpl in H; try discriminate. split; [reflexivity|discriminate].
  - apply IH; [|assumption].
    destruct (py_and _ _) as [[]|]; simpl in H; try discriminate.
    destruct (py_and _ _) as [[]|]; simpl in H; try discriminate.
    exact H.
Qed.

Lemma check_loop_true self hyp wk bk items :
  check_loop self hyp wk bk items = Ok true ->
  exists sq q, In (sq, q) items /\
    ((get_color q = Black /\
      can_make_move_hypothetical self hyp sq wk = Ok true) \/
     (get_color q = White /\
      can_make_move_hypothetical self hyp sq bk = Ok true)).
Proof.
  induction items as [|[k p] items IH]; simpl; [discriminate|].
  intros H.
  destruct (py_and (color_eqb (get_color p) Black) _) as [[]|] eqn:E1;
    simpl in H; try discriminate.
  { exists k, p. split; [now left|]. left. unfold py_and in E1.
    destruct (color_eqb (get_color p) Black) eqn:Ec; [|discriminate].
    apply color_eqb_eq in Ec. auto. }
  destruct (py_and (color_eqb (get_color p) White) _) as [[]|] eqn:E2;
    simpl in H; try discriminate.
  { exists k, p. split; [now left|]. right. unfold py_and in E2.
    destruct (color_eqb (get_color p) White) eqn:Ec; [|discriminate].
    apply color_eqb_eq in Ec. auto. }
  destruct (IH H) as (sq & q & Hin & Hq). exists sq, q. split; [now right|auto].
Qed.

Lemma check_loop_total self hyp wk bk items :
  (forall sq q, In (sq, q) items ->
     (exists v, can_make_move_hypothetical self hyp sq wk = Ok v) /\
     (exists v, can_make_move_hypothetical self hyp sq bk = Ok v)) ->
  exists v, check_loop self hyp wk bk items = Ok v.
Proof.
  induction items as [|[k p] items IH]; simpl; [eauto|].
  intros H. destruct (H k p (or_introl eq_refl)) as [[v1 H1] [v2 H2]].
  unfold py_and. rewrite H1, H2.
  destruct (IH (fun sq q Hin => H sq q (or_intror Hin))) as [v Hv].
  rewrite Hv.
  destruct (color_eqb (get_color p) Black), (color_eqb (get_color p) White),
    v1, v2; simpl; eauto.
Qed.

(* ================================================================= *)
(** ** The legality test never fails on square texts *)

Lemma square_text_coords s :
  square_text s = true ->
  exists f r, file_of s = Ok f /\ rank_of s = Ok r.
Proof.
  intros H. destruct (square_text_inv s H) as (f & d & rest & r & -> & Hd & _).
  exists (ord f), r. unfold file_of, rank_of. simpl. now rewrite Hd.
Qed.

Lemma get_squares_between_total a b :
  square_text a = true -> square_text b = true ->
  exists l, get_squares_between a b = Ok l.
Proof.
  intros Ha Hb.
  destruct (square_text_coords a Ha) as (fa & ra & Hfa & Hra).
  destruct (square_text_coords b Hb) as (fb & rb & Hfb & Hrb).
  rewrite (get_squares_between_listed a b fa ra fb rb) by assumption. eauto.
Qed.

Lemma can_make_move_hypothetical_total self board curr new :
  keys_are_square_texts board -> square_text new = true ->
  exists v, can_make_move_hypothetical self board curr new = Ok v.
Proof.
  intros Hkeys Hnew.
  unfold can_make_move_hypothetical, can_make_move_with.
  rewrite !get_piece_at_square_get.
  destruct (negb (game_state_eqb (_state self) UNFINISHED)); [eauto|].
  destruct (dict_get board curr) as [p|] eqn:Ep; [|eauto]. simpl.
  assert (Hcurr : square_text curr = true)
    by (apply (Hkeys curr p); now apply dict_get_in).
  destruct (is_valid_square_total self new Hnew) as [v ->]. simpl.
  destruct v; [|eauto]. simpl.
  destruct (valid_move_total p curr new Hcurr Hnew) as [w ->]. simpl.
  destruct w; [|eauto]. simpl.
  destruct (match dict_get board new with
            | Some target => color_eqb (get_color target) (get_color p)
            | None => false
            end); [eauto|].
  destruct (get_squares_between_total curr new Hcurr Hnew) as [l ->].
  destruct (negb (can_jump p)); simpl; [|eauto].
  destruct (existsb (dict_contains board) l); simpl; eauto.
Qed.

Lemma can_make_move_hypothetical_ext s1 s2 board curr new :
  _state s1 = _state s2 -> _board_size s1 = _board_size s2 ->
  can_make_move_hypothetical s1 board curr new
  = can_make_move_hypothetical s2 board curr new.
Proof.
  intros Hst Hsz.
  unfold can_make_move_hypothetical, can_make_move_with, is_valid_square.
  now rewrite Hst, Hsz.
Qed.

Lemma check_loop_ext s1 s2 hyp wk bk items :
  _state s1 = _state s2 -> _board_size s1 = _board_size s2 ->
  check_loop s1 hyp wk bk items = check_loop s2 hyp wk bk items.
Proof.
  intros Hst Hsz. induction items as [|[k p] items IH]; simpl; [reflexivity|].
  rewrite IH.
  now rewrite !(can_make_move_hypothetical_ext s1 s2) by assumption.
Qed.

Lemma gives_check_ext s1 s2 hyp :
  _state s1 = _state s2 -> _board_size s1 = _board_size s2 ->
  gives_check s1 hyp = gives_check s2 hyp.
Proof.
  intros Hst Hsz. unfold gives_check.
  destruct (locate_kings hyp) as [[wk bk]|]; simpl; [|reflexivity].
  now apply check_loop_ext.
Qed.

Lemma gives_check_total self hyp :
  keys_are_square_texts hyp ->
  (exists wk bk, locate_kings hyp = Ok (wk, bk)) ->
  exists v, gives_check self hyp = Ok v.
Proof.
  intros Hkeys (wk & bk & Hk). unfold gives_check. rewrite Hk. simpl.
  destruct (locate_kings_in _ _ _ Hk) as [Hw Hb].
  apply check_loop_total. intros sq q Hin.
  split; apply can_make_move_hypothetical_total; eauto.
Qed.

(** The real test is the hypothetical one, preceded by the turn guard
    and followed by the scan for a check. *)
Lemma can_make_move_split self board curr new :
  can_make_move self board curr new false
  = if negb (game_state_eqb (_state self) UNFINISHED) then Ok false else
    match dict_get board curr with
    | None => Ok false
    | Some p =>
        if negb (color_eqb (get_color p) (_turn self)) then Ok false else
        let* passes := can_make_move_hypothetical self board curr new in
        if negb passes then Ok false else
        let* check := results_in_check self curr new in
        if check then Ok false else Ok true
    end.
Proof.
  unfold can_make_move, can_make_move_hypothetical, can_make_move_with.
  rewrite !get_piece_at_square_get.
  destruct (negb (game_state_eqb (_state self) UNFINISHED)); [reflexivity|].
  destruct (dict_get board curr) as [p|]; [|reflexivity]. simpl.
  destruct (negb (color_eqb (get_color p) (_turn self))); [reflexivity|].
  destruct (is_valid_square self new) as [[]|]; simpl; try reflexivity.
  destruct (valid_move p curr new) as [[]|]; simpl; try reflexivity.
  destruct (match dict_get board new with
            | Some target => color_eqb (get_color target) (get_color p)
            | None => false
            end); [reflexivity|].
  destruct (if negb (can_jump p) then _ else _) as [[]|]; reflexivity.
Qed.

Lemma results_in_check_relocate self curr new p :
  dict_get (_board self) curr = Some p ->
  results_in_check self curr new
  = gives_check self (relocate (_board self) curr new p).
Proof.
  intros Hp. unfold results_in_check, delitem, dict_contains.
  rewrite get_piece_at_square_get, Hp. reflexivity.
Qed.

Lemma can_make_move_hypothetical_true self board curr new :
  can_make_move_hypothetical self board curr new = Ok true ->
  _state self = UNFINISHED /\
  is_valid_square self new = Ok true /\
  exists p, dict_get board curr = Some p /\
    forall q, dict_get board new = Some q -> get_color q <> get_color p.
Proof.
  intros H. split; [now apply can_make_move_with_true_unfinished in H|].
  unfold can_make_move_hypothetical, can_make_move_with in H.
  rewrite !get_piece_at_square_get in H.
  destruct (negb (game_state_eqb (_state self) UNFINISHED)); [discriminate|].
  destruct (dict_get board curr) as [p|]; [|discriminate]. simpl in H.
  destruct (is_valid_square self new) as [[]|]; simpl in H; try discriminate.
  split; [reflexivity|]. exists p. split; [reflexivity|].
  destruct (valid_move p curr new) as [[]|]; simpl in H; try discriminate.
  intros q Hq. rewrite Hq in H.
  destruct (color_eqb (get_color q) (get_color p)) eqn:E; [discriminate|].
  intros Heq. rewrite Heq, color_eqb_refl in E. discriminate.
Qed.

(** A move that passes the guards cannot take a king off the board when
    no king was attacked before it. *)
Lemma kings_survive self curr new p :
  session_ok self ->
  can_make_move_hypothetical self (_board self) curr new = Ok true ->
  dict_get (_board self) curr = Some p ->
  exists wk bk, locate_kings (relocate (_board self) curr new p) = Ok (wk, bk).
Proof.
  intros [_ Hok] Hpass Hp.
  destruct (can_make_move_hypothetical_true _ _ _ _ Hpass)
    as (Hst & _ & p' & Hp' & Hcap).
  rewrite Hp in Hp'. injection Hp' as <-.
  destruct (Hok Hst) as (Hnd & Hkeys & Hsafe).
  unfold gives_check in Hsafe.
  destruct (locate_kings (_board self)) as [[wk bk]|] eqn:Hk; [|discriminate].
  simpl in Hsafe.
  destruct (locate_kings_in _ _ _ Hk) as [Hw Hb].
  pose proof (check_loop_false _ _ _ _ _ Hsafe curr p (dict_get_in _ _ _ Hp))
    as [Hblack Hwhite].
  assert (Hking : forall k c, In (k, King c) (_board self) ->
            (c = White -> k = wk) -> (c = Black -> k = bk) ->
            exists k', In (k', King c) (relocate (_board self) curr new p)).
  { intros k c Hin Hkw Hkb.
    destruct (String.eqb_spec k curr) as [->|Hc].
    { rewrite (in_dict_get _ _ _ Hnd Hin) in Hp. injection Hp as <-.
      exists new. apply setitem_in. }
    destruct (String.eqb_spec k new) as [->|Hn].
    { exfalso. pose proof (Hcap _ (in_dict_get _ _ _ Hnd Hin)) as Hne.
      simpl in Hne. destruct c, (get_color p) eqn:Ec; try contradiction.
      - rewrite (Hkw eq_refl), (Hblack eq_refl) in Hpass. discriminate.
      - rewrite (Hkb eq_refl), (Hwhite eq_refl) in Hpass. discriminate. }
    exists k. now apply relocate_keeps. }
  destruct (Hking wk White Hw) as [kw Hkw]; [reflexivity|discriminate|].
  destruct (Hking bk Black Hb) as [kb Hkb]; [discriminate|reflexivity|].
  exact (locate_kings_total _ kw kb Hkw Hkb).
Qed.

Lemma keys_relocate board curr new p :
  keys_are_square_texts board -> square_text new = true ->
  keys_are_square_texts (relocate board curr new p).
Proof.
  intros Hkeys Hnew k q [[-> _]|Hin]%in_relocate; [assumption|eauto].
Qed.

(* ================================================================= *)
(** ** The invariant of a session *)

Lemma at_highest_rank_total self s :
  square_text s = true -> exists v, at_highest_rank self s = Ok v.
Proof.
  intros H. destruct (square_text_inv s H) as (f & d & rest & r & -> & Hd & _).
  unfold at_highest_rank. simpl. rewrite Hd. simpl. eauto.
Qed.

Lemma update_game_state_total self :
  keys_are_square_texts (_board self) ->
  (exists wk bk, locate_kings (_board self) = Ok (wk, bk)) ->
  exists self' over, update_game_state self = (self', Ok over).
Proof.
  intros Hkeys (wk & bk & Hk). unfold update_game_state. rewrite Hk.
  destruct (locate_kings_in _ _ _ Hk) as [Hw Hb].
  destruct (at_highest_rank_total self wk (Hkeys _ _ Hw)) as [w ->].
  destruct (at_highest_rank_total self bk (Hkeys _ _ Hb)) as [b ->].
  destruct b, w, (_game_end_imminent self); simpl; eauto.
Qed.

Lemma update_game_state_board_size self :
  _board_size (fst (update_game_state self)) = _board_size self.
Proof.
  unfold update_game_state.
  destruct (locate_kings (_board self)) as [[wk bk]|]; [|reflexivity].
  destruct (at_highest_rank self bk) as [b|]; simpl; [|reflexivity].
  destruct (at_highest_rank self wk) as [w|]; simpl;
    [|destruct b; reflexivity].
  destruct b, w, (_game_end_imminent self); reflexivity.
Qed.

Lemma gives_check_located self hyp v :
  gives_check self hyp = Ok v ->
  exists wk bk, locate_kings hyp = Ok (wk, bk) /\
                check_loop self hyp wk bk hyp = Ok v.
Proof.
  unfold gives_check.
  destruct (locate_kings hyp) as [[wk bk]|]; [|discriminate]. simpl. eauto.
Qed.

(** The real test answers on every destination that reads as a square. *)
Lemma can_make_move_total self curr new :
  session_ok self -> square_text new = true ->
  exists v, can_make_move self (_board self) curr new false = Ok v.
Proof.
  intros Hok Hnew. rewrite can_make_move_split.
  destruct (negb (game_state_eqb (_state self) UNFINISHED)) eqn:Est; [eauto|].
  assert (Hst : _state self = UNFINISHED).
  { apply game_state_eqb_eq.
    now destruct (game_state_eqb (_state self) UNFINISHED). }
  destruct (dict_get (_board self) curr) as [p|] eqn:Ep; [|eauto].
  destruct (negb (color_eqb (get_color p) (_turn self))); [eauto|].
  destruct (proj2 Hok Hst) as (Hnd & Hkeys & Hsafe).
  destruct (can_make_move_hypothetical_total self _ curr new Hkeys Hnew)
    as [v Hv].
  rewrite Hv. simpl. destruct v; simpl; [|eauto].
  rewrite (results_in_check_relocate self curr new p Ep).
  destruct (gives_check_total self (relocate (_board self) curr new p))
    as [c ->].
  - now apply keys_relocate.
  - now apply kings_survive.
  - simpl. destruct c; eauto.
Qed.

(** An accepted move is carried out without an exception and leads to a
    session that satisfies the invariant again. *)
Lemma accepted_move_ok self curr new :
  session_ok self ->
  can_make_move self (_board self) curr new false = Ok true ->
  exists self', make_move self curr new = (self', Ok true) /\ session_ok self'.
Proof.
  intros Hok Hcan. pose proof Hcan as Hsplit.
  rewrite can_make_move_split in Hsplit.
  pose proof (can_make_move_with_true_unfinished _ _ _ _ _ _ Hcan) as Hst.
  destruct (negb (game_state_eqb (_state self) UNFINISHED)); [discriminate|].
  destruct (dict_get (_board self) curr) as [p|] eqn:Ep; [|discriminate].
  destruct (negb (color_eqb (get_color p) (_turn self))); [discriminate|].
  destruct (can_make_move_hypothetical self (_board self) curr new)
    as [[]|] eqn:Epass; simpl in Hsplit; try discriminate.
  rewrite (results_in_check_relocate self curr new p Ep) in Hsplit.
  set (hyp := relocate (_board self) curr new p) in *.
  destruct (gives_check self hyp) as [[]|] eqn:Echeck; simpl in Hsplit;
    try discriminate.
  clear Hsplit.
  destruct (proj2 Hok Hst) as (Hnd & Hkeys & Hsafe).
  destruct (can_make_move_hypothetical_true _ _ _ _ Epass)
    as (_ & Hvalid%is_valid_square_text & _).
  assert (Hkeys' : keys_are_square_texts hyp) by now apply keys_relocate.
  destruct (gives_check_located _ _ _ Echeck) as (wk & bk & Hk & _).
  set (s1 := change_turns (set_board self hyp)).
  destruct (change_turns_fields (set_board self hyp))
    as (Hb1 & Hsz1 & _ & Hst1 & _). fold s1 in Hb1, Hsz1, Hst1. simpl in *.
  destruct (update_game_state_total s1) as (self' & over & Hu).
  { now rewrite Hb1. }
  { rewrite Hb1. eauto. }
  exists self'. split.
  - unfold make_move. rewrite Hcan.
    unfold delitem, dict_contains. rewrite get_piece_at_square_get, Ep.
    fold (relocate (_board self) curr new p). fold hyp. fold s1.
    now rewrite Hu.
  - pose proof (update_game_state_board s1) as Hb.
    pose proof (update_game_state_board_size s1) as Hsz.
    rewrite Hu in Hb, Hsz. simpl in Hb, Hsz.
    split; [rewrite Hsz, Hsz1; exact (proj1 Hok)|].
    intros Hst'. rewrite Hb, Hb1.
    split; [now apply NoDup_relocate|]. split; [assumption|].
    rewrite <- Echeck. apply gives_check_ext; congruence.
Qed.

Lemma session_ok_step self curr new :
  session_ok self -> session_ok (fst (make_move self curr new)).
Proof.
  intros Hok.
  destruct (can_make_move self (_board self) curr new false) as [[]|] eqn:E.
  - destruct (accepted_move_ok self curr new Hok E) as (self' & -> & Hok').
    exact Hok'.
  - now rewrite make_move_rejected_state by (rewrite E; discriminate).
  - now rewrite make_move_rejected_state by (rewrite E; discriminate).
Qed.

Lemma session_ok_new : session_ok new_ChessVar.
Proof.
  split; [reflexivity|]. intros _. split; [|split].
  - simpl. repeat (apply List.NoDup_cons; [simpl; intuition discriminate|]).
    constructor.
  - intros k p Hin. simpl in Hin.
    repeat (destruct Hin as [[= <- <-]|Hin]; [reflexivity|]). contradiction.
  - vm_compute. reflexivity.
Qed.

Lemma reachable_session_ok self : reachable self -> session_ok self.
Proof.
  induction 1 as [|self curr new _ IH]; [exact session_ok_new|].
  now apply session_ok_step.
Qed.

Lemma valid_entry_square_text self s :
  _board_size self = 8 -> valid_entry self s = true -> square_text s = true.
Proof.
  intros Hsz. unfold valid_entry, get_board_size. rewrite Hsz.
  destruct s as [|c0 [|c1 [|c2 rest]]]; simpl; try discriminate.
  match goal with
  | |- (if negb ?X then _ else _) = true -> _ => destruct X
  end; simpl; [|discriminate].
  repeat match goal with
  | |- context [Ascii.eqb c1 ?d] =>
      destruct (Ascii.eqb_spec c1 d) as [->|_]; [intros _; reflexivity|]
  end.
  simpl. discriminate.
Qed.

(* ================================================================= *)
(** ** Malformed and well-formed input *)


(* ================================================================= *)
(** ** Rejection for check *)

Lemma some_piece_reaches_king_iff self hyp wk bk v :
  check_loop self hyp wk bk hyp = Ok v ->
  (v = true <-> some_piece_reaches_king self hyp wk bk).
Proof.
  intros Hloop. split.
  - intros ->. exact (check_loop_true _ _ _ _ _ Hloop).
  - intros (sq & q & Hin & Hq). destruct v; [reflexivity|].
    destruct (check_loop_false _ _ _ _ _ Hloop sq q Hin) as [Hb Hw].
    rewrite can_make_move_hypothetical_eq in Hq.
    destruct Hq as [[Hc Hr]|[Hc Hr]].
    + rewrite (Hb Hc) in Hr. discriminate.
    + rewrite can_make_move_hypothetical_eq, (Hw Hc) in Hr. discriminate.
Qed.

(** C1 (as amended): on a session in progress, take a move whose piece
    belongs to the side to move and which passes the shape, occupancy,
    capture and path guards (the hypothetical-mode test).  Both kings are
    found on the board obtained by relocating the piece, and the move is
    rejected exactly when some piece of either colour on that board can
    reach the square of the opposing king under the hypothetical-mode
    test: a black piece reaching the white king or a white piece reaching
    the black king; otherwise the move is accepted. *)
Theorem guarded_move_rejected_iff_check self curr new p :
  reachable self ->
  dict_get (_board self) curr = Some p ->
  get_color p = _turn self ->
  can_make_move self (_board self) curr new true = Ok true ->
  exists wk bk,
    locate_kings (relocate (_board self) curr new p) = Ok (wk, bk) /\
    (can_make_move self (_board self) curr new false = Ok false <->
     some_piece_reaches_king self (relocate (_board self) curr new p) wk bk) /\
    (can_make_move self (_board self) curr new false = Ok true <->
     ~ some_piece_reaches_king self (relocate (_board self) curr new p) wk bk).
Proof.
  intros Hreach Hp Hturn Hpass.
  pose proof (reachable_session_ok self Hreach) as Hok.
  rewrite can_make_move_hypothetical_eq in Hpass.
  destruct (can_make_move_hypothetical_true _ _ _ _ Hpass)
    as (Hst & Hvalid%is_valid_square_text & _).
  destruct (proj2 Hok Hst) as (Hnd & Hkeys & Hsafe).
  set (hyp := relocate (_board self) curr new p).
  destruct (gives_check_total self hyp) as [v Hv].
  { now apply keys_relocate. }
  { now apply kings_survive. }
  destruct (gives_check_located _ _ _ Hv) as (wk & bk & Hk & Hloop).
  exists wk, bk. split; [exact Hk|].
  pose proof (some_piece_reaches_king_iff self hyp wk bk v Hloop) as Hiff.
  rewrite can_make_move_split, Hst, Hp, Hturn, color_eqb_refl, Hpass.
  simpl. rewrite (results_in_check_relocate self curr new p Hp).
  fold hyp. rewrite Hv. simpl.
  destruct v; split; split; try discriminate; try reflexivity.
  - intros _. now apply Hiff.
  - intros H. exfalso. apply H. now apply Hiff.
  - intros H%Hiff. discriminate.
  - intros _ H%Hiff. discriminate.
Qed.

Lemma guarded_move_rejected_iff_check_witness :
  exists wk bk,
    locate_kings (relocate (_board new_ChessVar) "c1" "d3" (Knight White))
    = Ok (wk, bk) /\
    (can_make_move new_ChessVar (_board new_ChessVar) "c1" "d3" false = Ok false
     <-> some_piece_reaches_king new_ChessVar
           (relocate (_board new_ChessVar) "c1" "d3" (Knight White)) wk bk) /\
    (can_make_move new_ChessVar (_board new_ChessVar) "c1" "d3" false = Ok true
     <-> ~ some_piece_reaches_king new_ChessVar
           (relocate (_board new_ChessVar) "c1" "d3" (Knight White)) wk bk).
Proof.
  apply (guarded_move_rejected_iff_check new_ChessVar "c1" "d3" (Knight White)).
  - exact reachable_new.
  - reflexivity.
  - reflexivity.
  - vm_compute. reflexivity.
Defined.

(** A white rook sent along a diagonal on White's turn is rejected,
    although on the board with the rook relocated no piece reaches a
    king. *)
Lemma rejected_without_check_counterexample :
  let self := new_ChessVar in
  let hyp := relocate (_board self) "a2" "b3" (Rook White) in
  _state self = UNFINISHED /\ _turn self = White /\
  dict_get (_board self) "a2" = Some (Rook White) /\
  locate_kings hyp = Ok ("a1", "h1") /\
  can_make_move self (_board self) "a2" "b3" false = Ok false /\
  ~ some_piece_reaches_king self hyp "a1" "h1" /\
  ~ (can_make_move self (_board self) "a2" "b3" false = Ok false <->
     some_piece_reaches_king self hyp "a1" "h1").
Proof.
  intros self hyp.
  assert (Hloop : check_loop self hyp "a1" "h1" hyp = Ok false)
    by (vm_compute; reflexivity).
  assert (Hno : ~ some_piece_reaches_king self hyp "a1" "h1").
  { intros H. apply (some_piece_reaches_king_iff _ _ _ _ _ Hloop) in H.
    discriminate. }
  repeat split; try reflexivity; try exact Hno.
  intros [H _]. apply Hno, H. reflexivity.
Qed.

(* ================================================================= *)
(** ** The shape predicates of the other pieces *)

Lemma getitem_raise s i e : getitem s i = Raise e -> e = IndexError.
Proof. unfold getitem. destruct (String.get i s); congruence. Qed.

Lemma int_raise c e : int c = Raise e -> e = ValueError.
Proof. unfold int. destruct (_ && _); congruence. Qed.

Lemma coords_chars s f r :
  file_of s = Ok f -> rank_of s = Ok r ->
  exists cf cr, getitem s 0 = Ok cf /\ getitem s 1 = Ok cr /\
                ord cf = f /\ int cr = Ok r.
Proof.
  unfold file_of, rank_of.
  destruct (getitem s 0) as [cf|]; simpl; [|discriminate].
  destruct (getitem s 1) as [cr|]; simpl; [|discriminate].
  intros [= <-] H. exists cf, cr. repeat split; assumption || reflexivity.
Qed.

(** The king's [valid_move] on two squares: at most one file and at most
    one rank away, the null move included. *)
Theorem King_valid_move_coords a b fa ra fb rb :
  file_of a = Ok fa -> rank_of a = Ok ra ->
  file_of b = Ok fb -> rank_of b = Ok rb ->
  King_valid_move a b
  = Ok ((Z.abs (fa - fb) <=? 1) && (Z.abs (ra - rb) <=? 1)).
Proof.
  intros Hfa Hra Hfb Hrb.
  destruct (coords_chars a fa ra Hfa Hra) as (cf & cr & E0 & E1 & <- & Ecr).
  destruct (coords_chars b fb rb Hfb Hrb) as (nf & nr & F0 & F1 & <- & Enr).
  unfold King_valid_move, abs_rank_delta.
  rewrite E0, E1, F0, F1. simpl. rewrite Ecr, Enr. simpl.
  rewrite !Z.gtb_ltb.
  destruct (Z.ltb_spec 1 (Z.abs (ord cf - ord nf)));
    destruct (Z.leb_spec (Z.abs (ord cf - ord nf)) 1); try lia;
    try reflexivity.
  destruct (Z.ltb_spec 1 (Z.abs (ra - rb)));
    destruct (Z.leb_spec (Z.abs (ra - rb)) 1); try lia; reflexivity.
Qed.

Lemma King_valid_move_coords_witness :
  King_valid_move "e4" "f5"
  = Ok ((Z.abs (101 - 102) <=? 1) && (Z.abs (4 - 5) <=? 1)).
Proof.
  apply (King_valid_move_coords "e4" "f5" 101 4 102 5); reflexivity.
Defined.

(** When the files are more than one apart the king's [valid_move]
    answers [False] before it converts a rank, so a rank character that
    is no digit raises nothing there. *)
Theorem King_valid_move_far_file a b cf cr nf nr :
  getitem a 0 = Ok cf -> getitem a 1 = Ok cr ->
  getitem b 0 = Ok nf -> getitem b 1 = Ok nr ->
  1 < Z.abs (ord cf - ord nf) ->
  King_valid_move a b = Ok false.
Proof.
  intros E0 E1 F0 F1 H. unfold King_valid_move.
  rewrite E0, E1, F0, F1. simpl. rewrite Z.gtb_ltb.
  destruct (Z.ltb_spec 1 (Z.abs (ord cf - ord nf))); [reflexivity|lia].
Qed.

Lemma King_valid_move_far_file_witness : King_valid_move "a?" "c!" = Ok false.
Proof.
  apply (King_valid_move_far_file "a?" "c!" "a" "?" "c" "!");
    reflexivity.
Defined.

(** The knight's [valid_move] on two squares: two files and one rank, or
    one file and two ranks. *)
Theorem Knight_valid_move_coords a b fa ra fb rb :
  file_of a = Ok fa -> rank_of a = Ok ra ->
  file_of b = Ok fb -> rank_of b = Ok rb ->
  Knight_valid_move a b
  = Ok (((Z.abs (fa - fb) =? 2) && (Z.abs (ra - rb) =? 1))
        || ((Z.abs (fa - fb) =? 1) && (Z.abs (ra - rb) =? 2))).
Proof.
  intros Hfa Hra Hfb Hrb.
  destruct (coords_chars a fa ra Hfa Hra) as (cf & cr & E0 & E1 & <- & Ecr).
  destruct (coords_chars b fb rb Hfb Hrb) as (nf & nr & F0 & F1 & <- & Enr).
  unfold Knight_valid_move, abs_rank_delta, py_and.
  rewrite E0, E1, F0, F1. simpl. rewrite Ecr, Enr. simpl.
  destruct (Z.eqb_spec (Z.abs (ord cf - ord nf)) 2) as [H2|H2];
    destruct (Z.eqb_spec (Z.abs (ord cf - ord nf)) 1) as [H1|H1];
    destruct (Z.eqb_spec (Z.abs (ra - rb)) 2) as [R2|R2];
    destruct (Z.eqb_spec (Z.abs (ra - rb)) 1) as [R1|R1];
    simpl; try lia; reflexivity.
Qed.

Lemma Knight_valid_move_coords_witness :
  Knight_valid_move "c1" "d3"
  = Ok (((Z.abs (99 - 100) =? 2) && (Z.abs (1 - 3) =? 1))
        || ((Z.abs (99 - 100) =? 1) && (Z.abs (1 - 3) =? 2))).
Proof.
  apply (Knight_valid_move_coords "c1" "d3" 99 1 100 3); reflexivity.
Defined.

(** The rook's [valid_move] compares characters, not numbers: on two
    texts of at least two characters it answers, without raising, and
    the answer is [True] exactly when the file characters are equal or
    the rank characters are equal, the null move included; a rank
    character that is no digit raises nothing. *)
Theorem Rook_valid_move_chars a b cf cr nf nr :
  getitem a 0 = Ok cf -> getitem a 1 = Ok cr ->
  getitem b 0 = Ok nf -> getitem b 1 = Ok nr ->
  (exists v, Rook_valid_move a b = Ok v) /\
  (Rook_valid_move a b = Ok true <-> cf = nf \/ cr = nr).
Proof.
  intros E0 E1 F0 F1. unfold Rook_valid_move.
  rewrite E0, E1, F0, F1. simpl.
  destruct (Ascii.eqb_spec cf nf) as [Hf|Hf];
    destruct (Ascii.eqb_spec cr nr) as [Hr|Hr]; simpl;
    (split; [eauto|]); split; auto; try discriminate.
  intros [H|H]; contradiction.
Qed.

Lemma Rook_valid_move_chars_witness :
  (exists v, Rook_valid_move "a?" "h?" = Ok v) /\
  (Rook_valid_move "a?" "h?" = Ok true <->
   "a"%char = "h"%char \/ "?"%char = "?"%char).
Proof.
  apply (Rook_valid_move_chars "a?" "h?" "a" "?" "h" "?"); reflexivity.
Defined.

Lemma abs_rank_delta_sym a b : abs_rank_delta a b = abs_rank_delta b a.
Proof.
  unfold abs_rank_delta.
  destruct (int a) as [x|e1] eqn:Ea, (int b) as [y|e2] eqn:Eb; simpl;
    try reflexivity.
  - f_equal. lia.
  - apply int_raise in Ea, Eb. congruence.
Qed.

(** Every shape predicate is symmetric in its two squares, exceptions
    included: a piece may go from [a] to [b] exactly when it may go from
    [b] to [a], and the call raises one way exactly when it raises the
    other way, with the same exception. *)
Theorem valid_move_sym p a b : valid_move p a b = valid_move p b a.
Proof.
  assert (Hidx : forall s i e, getitem s i = Raise e -> e = IndexError)
    by exact getitem_raise.
  destruct p; simpl;
    unfold King_valid_move, Knight_valid_move, Bishop_valid_move,
      Rook_valid_move;
    destruct (getitem a 0) as [cf|e1] eqn:E0;
    destruct (getitem a 1) as [cr|e2] eqn:E1;
    destruct (getitem b 0) as [nf|e3] eqn:F0;
    destruct (getitem b 1) as [nr|e4] eqn:F1; simpl;
    repeat match goal with
    | H : getitem _ _ = Raise _ |- _ => apply Hidx in H; subst
    end; try reflexivity;
    rewrite (abs_rank_delta_sym nr cr) || idtac;
    replace (Z.abs (ord nf - ord cf)) with (Z.abs (ord cf - ord nf)) by lia;
    try reflexivity.
  now rewrite (Ascii.eqb_sym nf cf), (Ascii.eqb_sym nr cr).
Qed.

(* ================================================================= *)
(** ** Writing and reading squares *)

Lemma ord_chr f : 0 <= f < 256 -> file_of (chr f) = Ok f.
Proof.
  intros H. unfold file_of, chr, ord. simpl.
  rewrite N_ascii_embedding by lia. f_equal. lia.
Qed.

Lemma str_digit r :
  0 <= r <= 9 -> str r = String (ascii_of_N (Z.to_N (r + 48))) EmptyString.
Proof.
  intros H.
  assert (r = 0 \/ r = 1 \/ r = 2 \/ r = 3 \/ r = 4 \/ r = 5 \/ r = 6
          \/ r = 7 \/ r = 8 \/ r = 9) as Hr by lia.
  repeat destruct Hr as [->|Hr]; try subst r; reflexivity.
Qed.

Lemma int_digit r :
  0 <= r <= 9 -> int (ascii_of_N (Z.to_N (r + 48))) = Ok r.
Proof.
  intros H.
  assert (r = 0 \/ r = 1 \/ r = 2 \/ r = 3 \/ r = 4 \/ r = 5 \/ r = 6
          \/ r = 7 \/ r = 8 \/ r = 9) as Hr by lia.
  repeat destruct Hr as [->|Hr]; try subst r; reflexivity.
Qed.

Lemma int_ok_digit c r : int c = Ok r -> 0 <= r <= 9.
Proof.
  intros H. unfold int in H. destruct (_ && _) eqn:E; [|discriminate].
  apply andb_true_iff in E as [E1%Z.leb_le E2%Z.leb_le].
  injection H as <-. lia.
Qed.

Lemma square_coords f r :
  0 <= f < 256 -> 0 <= r <= 9 ->
  file_of (square f r) = Ok f /\ rank_of (square f r) = Ok r /\
  String.length (square f r) = 2%nat.
Proof.
  intros Hf Hr. unfold square. rewrite (str_digit r Hr).
  pose proof (ord_chr f Hf) as Hfile. unfold file_of, rank_of, chr in *.
  simpl in *. rewrite (int_digit r Hr). auto.
Qed.

Lemma is_valid_square_coords self s f r :
  file_of s = Ok f -> rank_of s = Ok r ->
  is_valid_square self s
  = Ok ((97 <=? f) && (f <=? 97 + _board_size self - 1)
        && ((1 <=? r) && (r <=? _board_size self))).
Proof.
  intros Hfile Hrank.
  destruct (coords_chars s f r Hfile Hrank) as (cf & cr & E0 & E1 & <- & Ecr).
  unfold is_valid_square. rewrite E0. simpl.
  destruct ((97 <=? ord cf) && (ord cf <=? 97 + _board_size self - 1));
    simpl; [|reflexivity].
  rewrite E1. simpl. rewrite Ecr. simpl.
  destruct ((1 <=? r) && (r <=? _board_size self)); reflexivity.
Qed.

Lemma is_valid_square_true_coords self s :
  is_valid_square self s = Ok true ->
  exists f r, file_of s = Ok f /\ rank_of s = Ok r /\
    97 <= f <= 97 + _board_size self - 1 /\ 1 <= r <= _board_size self /\
    f < 256 /\ r <= 9.
Proof.
  intros H. pose proof (is_valid_square_text self s H) as Ht.
  destruct (square_text_coords s Ht) as (f & r & Hf & Hr).
  rewrite (is_valid_square_coords self s f r Hf Hr) in H.
  injection H as H.
  apply andb_true_iff in H as [[H1%Z.leb_le H2%Z.leb_le]%andb_true_iff
                               [H3%Z.leb_le H4%Z.leb_le]%andb_true_iff].
  exists f, r. repeat split; try assumption.
  - destruct (coords_chars s f r Hf Hr) as (cf & _ & _ & _ & <- & _).
    unfold ord. pose proof (N_ascii_bounded cf). lia.
  - destruct (coords_chars s f r Hf Hr) as (_ & cr & _ & _ & _ & Hc).
    apply int_ok_digit in Hc. lia.
Qed.

Lemma path_toward_rev fa ra fb rb :
  aligned fa ra fb rb = true ->
  path_toward fb rb fa ra = rev (path_toward fa ra fb rb).
Proof.
  intros Hal. unfold path_toward. rewrite rev_map_range.
  replace (Z.max (Z.abs (fa - fb)) (Z.abs (ra - rb)))
    with (Z.max (Z.abs (fb - fa)) (Z.abs (rb - ra))) by lia.
  set (d := Z.max (Z.abs (fb - fa)) (Z.abs (rb - ra))).
  replace (d - 1 + 1) with d by lia.
  apply map_ext_in. intros i Hi%in_range.
  unfold aligned in Hal.
  apply orb_true_iff in Hal as [[Hf%Z.eqb_eq|Hr%Z.eqb_eq]%orb_true_iff
                                |Hd%Z.eqb_eq];
    f_equal; subst d; nia.
Qed.

Lemma squares_between_listed_rev fa ra fb rb :
  squares_between_listed fb rb fa ra
  = if (fa =? fb) || (ra =? rb)
    then squares_between_listed fa ra fb rb
    else rev (squares_between_listed fa ra fb rb).
Proof.
  unfold squares_between_listed.
  assert (Hal : aligned fb rb fa ra = aligned fa ra fb rb).
  { unfold aligned. rewrite (Z.eqb_sym fb fa), (Z.eqb_sym rb ra).
    f_equal. destruct (Z.eqb_spec (Z.abs (fa - fb)) (Z.abs (ra - rb)));
      destruct (Z.eqb_spec (Z.abs (fb - fa)) (Z.abs (rb - ra))); lia || auto. }
  rewrite Hal. destruct (aligned fa ra fb rb) eqn:E.
  2: { destruct ((fa =? fb) || (ra =? rb)); reflexivity. }
  rewrite (path_toward_rev fa ra fb rb E). unfold straight_descending.
  destruct (Z.eqb_spec fa fb) as [->|Hf]; simpl.
  - rewrite Z.eqb_refl, Z.ltb_irrefl, !andb_false_r, !orb_false_r. simpl.
    destruct (Z.ltb_spec rb ra), (Z.ltb_spec ra rb); try lia.
    + reflexivity.
    + now rewrite rev_involutive.
    + assert (ra = rb) as -> by lia. rewrite path_toward_file.
      now rewrite Z.sub_diag.
  - destruct (Z.eqb_spec fb fa) as [->|_]; [contradiction|]. simpl.
    destruct (Z.eqb_spec ra rb) as [->|Hr]; simpl.
    + rewrite Z.eqb_refl. simpl.
      destruct (Z.ltb_spec fb fa), (Z.ltb_spec fa fb); try lia.
      * reflexivity.
      * now rewrite rev_involutive.
    + destruct (Z.eqb_spec rb ra) as [->|_]; [contradiction|]. reflexivity.
Qed.

Lemma get_squares_between_ok_coords a b l :
  get_squares_between a b = Ok l ->
  exists fa ra fb rb,
    file_of a = Ok fa /\ rank_of a = Ok ra /\
    file_of b = Ok fb /\ rank_of b = Ok rb.
Proof.
  unfold get_squares_between, file_of, rank_of.
  destruct (getitem a 0) as [c0|]; simpl; [|discriminate].
  destruct (getitem b 0) as [n0|]; simpl; [|discriminate].
  destruct (getitem a 1) as [c1|]; simpl; [|discriminate].
  destruct (int c1) as [ra|]; simpl; [|discriminate].
  destruct (getitem b 1) as [n1|]; simpl; [|discriminate].
  destruct (int n1) as [rb|]; simpl; [|discriminate].
  intros _. exists (ord c0), ra, (ord n0), rb. auto.
Qed.

Lemma existsb_rev {A : Type} (f : A -> bool) l :
  existsb f (rev l) = existsb f l.
Proof.
  induction l as [|x l IH]; simpl; [reflexivity|].
  rewrite existsb_app, IH. simpl. rewrite orb_false_r. apply orb_comm.
Qed.

(** The squares between two squares do not depend on the direction: from
    [b] to [a] the engine lists the same squares as from [a] to [b], in
    the same order along a file or a rank and in the opposite order on a
    diagonal; so a path is blocked one way exactly when it is blocked the
    other way. *)
Theorem get_squares_between_reverse a b l :
  get_squares_between a b = Ok l ->
  exists l',
    get_squares_between b a = Ok l' /\
    (l' = l \/ l' = rev l) /\
    forall board,
      existsb (dict_contains board) l' = existsb (dict_contains board) l.
Proof.
  intros H.
  destruct (get_squares_between_ok_coords a b l H)
    as (fa & ra & fb & rb & Hfa & Hra & Hfb & Hrb).
  rewrite (get_squares_between_listed a b fa ra fb rb) in H by assumption.
  injection H as <-.
  rewrite (get_squares_between_listed b a fb rb fa ra) by assumption.
  rewrite squares_between_listed_rev.
  destruct ((fa =? fb) || (ra =? rb)); eexists; split; try reflexivity.
  - split; [now left|reflexivity].
  - split; [now right|]. intros board. apply existsb_rev.
Qed.

Lemma get_squares_between_reverse_witness :
  exists l',
    get_squares_between "d4" "a1" = Ok l' /\
    (l' = ["b2"; "c3"] \/ l' = rev ["b2"; "c3"]) /\
    forall board,
      existsb (dict_contains board) l'
      = existsb (dict_contains board) ["b2"; "c3"].
Proof.
  apply (get_squares_between_reverse "a1" "d4" ["b2"; "c3"]). reflexivity.
Defined.

(** Between two squares of the board the engine lists only squares of
    the board, each written with two characters, each within the files
    and the ranks of the two ends and different from both ends. *)
Theorem get_squares_between_on_board self a b l :
  is_valid_square self a = Ok true ->
  is_valid_square self b = Ok true ->
  get_squares_between a b = Ok l ->
  exists fa ra fb rb,
    file_of a = Ok fa /\ rank_of a = Ok ra /\
    file_of b = Ok fb /\ rank_of b = Ok rb /\
    forall s, In s l ->
      is_valid_square self s = Ok true /\ String.length s = 2%nat /\
      exists f r,
        file_of s = Ok f /\ rank_of s = Ok r /\
        Z.min fa fb <= f <= Z.max fa fb /\
        Z.min ra rb <= r <= Z.max ra rb /\
        (f <> fa \/ r <> ra) /\ (f <> fb \/ r <> rb).
Proof.
  intros Ha Hb Hl.
  destruct (is_valid_square_true_coords self a Ha)
    as (fa & ra & Hfa & Hra & Bfa & Bra & Ufa & Ura).
  destruct (is_valid_square_true_coords self b Hb)
    as (fb & rb & Hfb & Hrb & Bfb & Brb & Ufb & Urb).
  exists fa, ra, fb, rb. repeat (split; [assumption|]).
  rewrite (get_squares_between_listed a b fa ra fb rb) in Hl by assumption.
  injection Hl as <-. intros s Hs.
  assert (Hpath : In s (path_toward fa ra fb rb)
                  /\ aligned fa ra fb rb = true).
  { unfold squares_between_listed in Hs.
    destruct (aligned fa ra fb rb); [|contradiction].
    split; [|reflexivity].
    destruct (straight_descending fa ra fb rb); [|assumption].
    now apply in_rev. }
  destruct Hpath as [Hin Hal]. unfold path_toward in Hin.
  apply in_map_iff in Hin as (i & <- & Hi%in_range).
  set (f := fa + Z.sgn (fb - fa) * i). set (r := ra + Z.sgn (rb - ra) * i).
  assert (Hbounds : Z.min fa fb <= f <= Z.max fa fb /\
                    Z.min ra rb <= r <= Z.max ra rb /\
                    (f <> fa \/ r <> ra) /\ (f <> fb \/ r <> rb)).
  { unfold aligned in Hal. subst f r.
    apply orb_true_iff in Hal as [[Hf%Z.eqb_eq|Hr%Z.eqb_eq]%orb_true_iff
                                  |Hd%Z.eqb_eq]; nia. }
  destruct Hbounds as (Bf & Br & Na & Nb).
  destruct (square_coords f r) as (Rf & Rr & Rl); [lia|lia|].
  split; [|split; [exact Rl|]].
  - rewrite (is_valid_square_coords self _ f r Rf Rr). f_equal.
    apply andb_true_iff. split; apply andb_true_iff; split; apply Z.leb_le; lia.
  - exists f, r. repeat split; assumption || lia.
Qed.

Lemma get_squares_between_on_board_witness :
  exists fa ra fb rb,
    file_of "h8" = Ok fa /\ rank_of "h8" = Ok ra /\
    file_of "e5" = Ok fb /\ rank_of "e5" = Ok rb /\
    forall s, In s ["g7"; "f6"] ->
      is_valid_square new_ChessVar s = Ok true /\ String.length s = 2%nat /\
      exists f r,
        file_of s = Ok f /\ rank_of s = Ok r /\
        Z.min fa fb <= f <= Z.max fa fb /\
        Z.min ra rb <= r <= Z.max ra rb /\
        (f <> fa \/ r <> ra) /\ (f <> fb \/ r <> rb).
Proof.
  apply (get_squares_between_on_board new_ChessVar "h8" "e5" ["g7"; "f6"]);
    reflexivity.
Defined.

(* ================================================================= *)
(** ** The input screen and the board test *)

Lemma file_char_test c :
  existsb (String.eqb (String c EmptyString)) (map chr (range 97 (97 + 8)))
  = (97 <=? ord c) && (ord c <=? 97 + 8 - 1).
Proof. destruct c as [[] [] [] [] [] [] [] []]; vm_compute; reflexivity. Qed.

Lemma rank_char_test c :
  existsb (String.eqb (String c EmptyString)) (map str (range 1 (1 + 8)))
  = match int c with
    | Ok r => (1 <=? r) && (r <=? 8)
    | Raise _ => false
    end.
Proof. destruct c as [[] [] [] [] [] [] [] []]; vm_compute; reflexivity. Qed.

(** On the eight by eight board [ChessUI.valid_entry] passes exactly the
    texts of two characters whose rank character is one of the
    characters ['0'] to ['9'] and that [is_valid_square] accepts; so
    every text it passes is a square for the engine. *)
Theorem valid_entry_iff engine s :
  _board_size engine = 8 ->
  (valid_entry engine s = true <->
   String.length s = 2%nat /\ is_valid_square engine s = Ok true /\
   exists c1, getitem s 1 = Ok c1 /\ 48 <= ord c1 <= 57).
Proof.
  intros Hsz. unfold valid_entry, get_board_size, is_valid_square.
  rewrite Hsz.
  destruct s as [|c0 [|c1 [|c2 rest]]].
  - split; [discriminate|intros [[=] _]].
  - split; [discriminate|intros [[=] _]].
  - cbn [String.length Nat.eqb negb String.get getitem bind].
    rewrite file_char_test, rank_char_test.
    destruct ((97 <=? ord c0) && (ord c0 <=? 97 + 8 - 1)); simpl.
    2: { split; [discriminate|intros (_ & [=] & _)]. }
    destruct (int c1) as [r|e] eqn:Ec; simpl.
    2: { split; [discriminate|intros (_ & [=] & _)]. }
    destruct ((1 <=? r) && (r <=? 8)); simpl.
    2: { split; [discriminate|intros (_ & [=] & _)]. }
    split; [|reflexivity]. intros _.
    split; [reflexivity|]. split; [reflexivity|].
    exists c1. split; [reflexivity|].
    unfold int in Ec. destruct ((48 <=? ord c1) && (ord c1 <=? 57)) eqn:E;
      [|discriminate].
    apply andb_true_iff in E as [E1%Z.leb_le E2%Z.leb_le]. lia.
  - split; [discriminate|intros [[=] _]].
Qed.

Lemma valid_entry_iff_witness :
  valid_entry new_ChessVar "h8" = true <->
  String.length "h8" = 2%nat /\ is_valid_square new_ChessVar "h8" = Ok true /\
  exists c1, getitem "h8" 1 = Ok c1 /\ 48 <= ord c1 <= 57.
Proof. apply (valid_entry_iff new_ChessVar "h8"). reflexivity. Defined.

(* ================================================================= *)
(** ** Which king [locate_kings] returns *)

Lemma last_cons_default {A : Type} (x : A) l d : List.last (x :: l) d = List.last l x.
Proof.
  revert x d. induction l as [|y l IH]; intros x d; [reflexivity|].
  change (List.last (x :: y :: l) d) with (List.last (y :: l) d).
  now rewrite !(IH y).
Qed.

Lemma locate_kings_loop_last items w b :
  locate_kings_loop items w b
  = (List.last (map Some (king_squares White items)) w,
     List.last (map Some (king_squares Black items)) b).
Proof.
  revert w b. induction items as [|[k p] items IH]; intros w b;
    [reflexivity|].
  cbn [locate_kings_loop]. rewrite IH. unfold king_squares.
  cbn [List.filter snd].
  destruct (is_king p && color_eqb (get_color p) White),
           (is_king p && color_eqb (get_color p) Black);
    cbn [map fst]; now rewrite ?last_cons_default.
Qed.

Lemma in_king_squares c board k :
  In k (king_squares c board) <-> In (k, King c) board.
Proof.
  unfold king_squares. rewrite in_map_iff. split.
  - intros ([k' p] & <- & [Hin Hk]%filter_In). simpl in *.
    assert (p = King c) as ->; [|assumption].
    destruct c; [now apply is_white_king|now apply is_black_king].
  - intros Hin. exists (k, King c). split; [reflexivity|].
    apply filter_In. split; [assumption|]. simpl. apply color_eqb_refl.
Qed.

(** [locate_kings] returns, for each colour, the square of the king that
    comes last in the iteration order of the board, and raises
    [UnboundLocalError] exactly when the board holds no king of some
    colour; it raises nothing else. *)
Theorem locate_kings_last board :
  locate_kings board
  = match last_of (king_squares White board),
          last_of (king_squares Black board) with
    | Some wk, Some bk => Ok (wk, bk)
    | _, _ => Raise UnboundLocalError
    end.
Proof.
  unfold locate_kings, last_of. now rewrite locate_kings_loop_last.
Qed.

Lemma last_of_none {A : Type} (l : list A) : last_of l = None <-> l = [].
Proof.
  unfold last_of. destruct l as [|x l]; [tauto|].
  split; [|discriminate]. simpl map. rewrite last_cons_default.
  assert (H : exists y, List.last (map Some l) (Some x) = Some y).
  { revert x. induction l as [|z l IH]; intros x; simpl map; [now exists x|].
    rewrite last_cons_default. apply IH. }
  destruct H as [y ->]. discriminate.
Qed.

(** [locate_kings] fails exactly when a colour has no king on the board. *)
Theorem locate_kings_raises_iff board :
  locate_kings board = Raise UnboundLocalError <->
  (forall k, ~ In (k, King White) board) \/
  (forall k, ~ In (k, King Black) board).
Proof.
  unfold locate_kings. rewrite locate_kings_loop_last.
  fold (last_of (king_squares White board)).
  fold (last_of (king_squares Black board)).
  destruct (last_of (king_squares White board)) as [wk|] eqn:Ew.
  - destruct (last_of (king_squares Black board)) as [bk|] eqn:Eb.
    + split; [discriminate|]. intros [H|H]; exfalso.
      * destruct (king_squares White board) as [|k l] eqn:E;
          [discriminate|].
        apply (H k), in_king_squares. rewrite E. now left.
      * destruct (king_squares Black board) as [|k l] eqn:E;
          [discriminate|].
        apply (H k), in_king_squares. rewrite E. now left.
    + split; [|reflexivity]. intros _. right. intros k Hin.
      apply last_of_none in Eb. apply in_king_squares in Hin.
      now rewrite Eb in Hin.
  - split; [|reflexivity]. intros _. left. intros k Hin.
    apply last_of_none in Ew. apply in_king_squares in Hin.
    now rewrite Ew in Hin.
Qed.

(* ================================================================= *)
(** ** Placing pieces *)

Lemma dict_get_setitem_eq d k v : dict_get (setitem d k v) k = Some v.
Proof.
  induction d as [|[k0 v0] d IH]; simpl.
  - now rewrite String.eqb_refl.
  - destruct (String.eqb_spec k k0) as [->|Hne]; simpl.
    + now rewrite String.eqb_refl.
    + destruct (String.eqb_spec k k0); [contradiction|assumption].
Qed.

Lemma dict_get_setitem_ne d k v k' :
  k' <> k -> dict_get (setitem d k v) k' = dict_get d k'.
Proof.
  intros Hne. induction d as [|[k0 v0] d IH]; simpl.
  - destruct (String.eqb_spec k' k); [contradiction|reflexivity].
  - destruct (String.eqb_spec k k0) as [->|Hk]; simpl.
    + destruct (String.eqb_spec k' k0); [contradiction|reflexivity].
    + destruct (String.eqb_spec k' k0); [reflexivity|assumption].
Qed.

Lemma dict_get_remove_ne d k k' :
  k' <> k -> dict_get (dict_remove d k) k' = dict_get d k'.
Proof.
  intros Hne. induction d as [|[k0 v0] d IH]; simpl; [reflexivity|].
  destruct (String.eqb_spec k k0) as [->|Hk]; simpl.
  - destruct (String.eqb_spec k' k0); [contradiction|reflexivity].
  - destruct (String.eqb_spec k' k0); [reflexivity|assumption].
Qed.

Lemma dict_get_remove_eq d k :
  List.NoDup (map fst d) -> dict_get (dict_remove d k) k = None.
Proof.
  intros Hnd. destruct (dict_get (dict_remove d k) k) as [p|] eqn:E;
    [|reflexivity].
  exfalso. apply dict_get_in in E. revert Hnd E.
  induction d as [|[k0 v0] d IH]; simpl; [tauto|].
  intros [Hk Hnd]%List.NoDup_cons_iff.
  destruct (String.eqb_spec k k0) as [->|Hne].
  - intros Hin. apply Hk, in_map_iff. now exists (k0, p).
  - intros [[= -> ->]|Hin]; [contradiction|]. now apply IH.
Qed.

(** [spawn_piece] matches the piece name without regard to case.  With
    one of the four names it returns [True] and puts a piece of that
    kind and of the given colour on the lower-cased square, replacing
    what stood there and leaving every other square and every other
    attribute as it was; with any other name it returns [False] and
    changes nothing. *)
Theorem spawn_piece_spec self name square c :
  (forall kind p,
     In (kind, p) [("knight", Knight c); ("king", King c);
                   ("bishop", Bishop c); ("rook", Rook c)] ->
     lower name = kind ->
     exists self',
       spawn_piece self name square c = (self', true) /\
       get_piece_at_square (_board self') (lower square) = Some p /\
       (forall k, k <> lower square ->
          get_piece_at_square (_board self') k
          = get_piece_at_square (_board self) k) /\
       _turn self' = _turn self /\ _state self' = _state self /\
       _game_end_imminent self' = _game_end_imminent self /\
       _board_size self' = _board_size self) /\
  (~ In (lower name) ["knight"; "king"; "bishop"; "rook"] ->
   spawn_piece self name square c = (self, false)).
Proof.
  split.
  - intros kind p Hin Hname. unfold spawn_piece. rewrite Hname.
    simpl in Hin.
    destruct Hin as [[= <- <-]|[[= <- <-]|[[= <- <-]|[[= <- <-]|[]]]]];
      cbn [String.eqb Ascii.eqb Bool.eqb];
      (eexists; split; [reflexivity|]); cbn [_board set_board];
      (split; [rewrite get_piece_at_square_get; apply dict_get_setitem_eq|]);
      (split; [intros k Hk; rewrite !get_piece_at_square_get;
               now apply dict_get_setitem_ne|]);
      repeat split.
  - intros Hnot. unfold spawn_piece.
    destruct (String.eqb_spec (lower name) "knight") as [E|_];
      [exfalso; apply Hnot; rewrite E; simpl; auto|].
    destruct (String.eqb_spec (lower name) "king") as [E|_];
      [exfalso; apply Hnot; rewrite E; simpl; auto|].
    destruct (String.eqb_spec (lower name) "bishop") as [E|_];
      [exfalso; apply Hnot; rewrite E; simpl; auto|].
    destruct (String.eqb_spec (lower name) "rook") as [E|_];
      [exfalso; apply Hnot; rewrite E; simpl; auto|].
    reflexivity.
Qed.

Lemma spawn_piece_spec_witness :
  (exists self',
     spawn_piece new_ChessVar "KnIgHt" "D4" Black = (self', true) /\
     get_piece_at_square (_board self') "d4" = Some (Knight Black) /\
     get_piece_at_square (_board self') "a1" = Some (King White) /\
     _turn self' = White) /\
  spawn_piece new_ChessVar "queen" "d4" Black = (new_ChessVar, false).
Proof.
  destruct (spawn_piece_spec new_ChessVar "KnIgHt" "D4" Black) as [Hyes _].
  destruct (spawn_piece_spec new_ChessVar "queen" "d4" Black) as [_ Hno].
  split.
  - destruct (Hyes "knight" (Knight Black)) as (s & H1 & H2 & H3 & H4 & _).
    + simpl. auto.
    + reflexivity.
    + exists s. split; [exact H1|]. split; [exact H2|].
      split; [|exact H4]. rewrite (H3 "a1"); [reflexivity|discriminate].
  - apply Hno. simpl. intros [H|[H|[H|[H|[]]]]]; discriminate.
Defined.

(* ================================================================= *)
(** ** What acceptance means *)

Lemma can_make_move_true_piece self board curr new :
  can_make_move self board curr new false = Ok true ->
  exists p,
    dict_get board curr = Some p /\
    get_color p = _turn self /\
    can_make_move_hypothetical self board curr new = Ok true /\
    is_valid_square self new = Ok true.
Proof.
  rewrite can_make_move_split.
  destruct (negb (game_state_eqb (_state self) UNFINISHED)); [discriminate|].
  destruct (dict_get board curr) as [p|]; [|discriminate].
  destruct (color_eqb (get_color p) (_turn self)) eqn:Ec; [|discriminate].
  apply color_eqb_eq in Ec. simpl.
  destruct (can_make_move_hypothetical self board curr new) as [[]|] eqn:E;
    simpl; try discriminate.
  intros _. exists p. repeat split; try assumption.
  now destruct (can_make_move_hypothetical_true _ _ _ _ E) as (_ & Hv & _).
Qed.

(** [can_make_move] in real mode accepts a move exactly when the game is
    in progress, the source holds a piece of the side to move, the
    destination is on the board, the shape fits the piece, the
    destination holds no piece of the same colour, the squares between
    are empty unless the piece jumps, and the move gives no check. *)
Theorem can_make_move_accepts_iff self board curr new :
  can_make_move self board curr new false = Ok true <->
  _state self = UNFINISHED /\
  exists p,
    get_piece_at_square board curr = Some p /\
    get_color p = _turn self /\
    is_valid_square self new = Ok true /\
    valid_move p curr new = Ok true /\
    (forall q, get_piece_at_square board new = Some q ->
               get_color q <> get_color p) /\
    (can_jump p = false ->
     exists between,
       get_squares_between curr new = Ok between /\
       forall s, In s between -> get_piece_at_square board s = None) /\
    results_in_check self curr new = Ok false.
Proof.
  unfold can_make_move, can_make_move_with.
  rewrite !get_piece_at_square_get. split.
  - intros H.
    destruct (game_state_eqb (_state self) UNFINISHED) eqn:Est;
      [|discriminate].
    apply game_state_eqb_eq in Est. split; [exact Est|]. simpl in H.
    destruct (dict_get board curr) as [p|]; [|discriminate].
    exists p. split; [reflexivity|]. simpl in H.
    destruct (color_eqb (get_color p) (_turn self)) eqn:Ec; [|discriminate].
    apply color_eqb_eq in Ec. split; [exact Ec|]. simpl in H.
    destruct (is_valid_square self new) as [[]|]; simpl in H;
      try discriminate.
    split; [reflexivity|].
    destruct (valid_move p curr new) as [[]|]; simpl in H; try discriminate.
    split; [reflexivity|].
    split.
    { intros q Hq. rewrite Hq in H.
      destruct (color_eqb (get_color q) (get_color p)) eqn:E;
        [discriminate|].
      intros Heq. rewrite Heq, color_eqb_refl in E. discriminate. }
    assert (Hfree : match dict_get board new with
                    | Some target => color_eqb (get_color target) (get_color p)
                    | None => false
                    end = false).
    { destruct (match dict_get board new with
                | Some target => color_eqb (get_color target) (get_color p)
                | None => false end); [discriminate|reflexivity]. }
    rewrite Hfree in H.
    destruct (can_jump p) eqn:Ej; simpl in H.
    + split; [discriminate|].
      destruct (results_in_check self curr new) as [[]|]; simpl in H;
        try discriminate. reflexivity.
    + destruct (get_squares_between curr new) as [between|]; simpl in H;
        [|discriminate].
      destruct (existsb (dict_contains board) between) eqn:Eb; simpl in H;
        [discriminate|].
      split.
      * intros _. exists between. split; [reflexivity|]. intros s Hs.
        rewrite get_piece_at_square_get.
        destruct (dict_get board s) as [q|] eqn:Eq; [|reflexivity].
        assert (existsb (dict_contains board) between = true); [|congruence].
        apply existsb_exists. exists s. split; [exact Hs|].
        unfold dict_contains. now rewrite Eq.
      * destruct (results_in_check self curr new) as [[]|]; simpl in H;
          try discriminate. reflexivity.
  - intros (Hst & p & Hp & Hc & Hv & Hs & Hcap & Hpath & Hcheck).
    rewrite Hst, Hp, Hc, color_eqb_refl, Hv, Hs, Hcheck. simpl.
    assert (Hfree : match dict_get board new with
                    | Some target => color_eqb (get_color target) (get_color p)
                    | None => false
                    end = false).
    { destruct (dict_get board new) as [q|] eqn:Eq; [|reflexivity].
      destruct (color_eqb (get_color q) (get_color p)) eqn:E; [|reflexivity].
      apply color_eqb_eq in E. exfalso. now apply (Hcap q). }
    rewrite <- Hc, Hfree.
    destruct (can_jump p) eqn:Ej; simpl; [reflexivity|].
    destruct (Hpath eq_refl) as (between & -> & Hempty). simpl.
    destruct (existsb (dict_contains board) between) eqn:Eb; [|reflexivity].
    apply existsb_exists in Eb as (s & Hin & Hc').
    specialize (Hempty s Hin). rewrite get_piece_at_square_get in Hempty.
    unfold dict_contains in Hc'. now rewrite Hempty in Hc'.
Qed.

(** With no piece on the source square, or in real mode with a piece of
    the side not to move, [can_make_move] answers [False] without
    looking at the destination, so even a destination text on which
    [is_valid_square] raises is answered and not raised on. *)
Theorem can_make_move_source_guards self board curr new hypo :
  get_piece_at_square board curr = None \/
  (hypo = false /\
   exists p, get_piece_at_square board curr = Some p /\
             get_color p <> _turn self) ->
  can_make_move self board curr new hypo = Ok false.
Proof.
  unfold can_make_move, can_make_move_with.
  destruct (negb (game_state_eqb (_state self) UNFINISHED)); [reflexivity|].
  intros [->|(-> & p & -> & Hne)]; [reflexivity|]. simpl.
  destruct (color_eqb (get_color p) (_turn self)) eqn:E; [|reflexivity].
  apply color_eqb_eq in E. contradiction.
Qed.

Lemma can_make_move_source_guards_witness :
  can_make_move new_ChessVar (_board new_ChessVar) "h2" "" false = Ok false.
Proof.
  apply (can_make_move_source_guards new_ChessVar _ "h2" "" false).
  right. split; [reflexivity|]. exists (Rook Black). split; [reflexivity|].
  discriminate.
Defined.

(* ================================================================= *)
(** ** The board after a move *)

Lemma NoDup_in_unique (d : py_dict) k v1 v2 :
  List.NoDup (map fst d) -> In (k, v1) d -> In (k, v2) d -> v1 = v2.
Proof.
  intros Hnd H1%(in_dict_get _ _ _ Hnd) H2%(in_dict_get _ _ _ Hnd).
  congruence.
Qed.

Lemma not_in_dict_remove (d : py_dict) k q :
  List.NoDup (map fst d) -> ~ In (k, q) (dict_remove d k).
Proof.
  intros Hnd Hin.
  apply (in_dict_get _ _ _ (NoDup_dict_remove d k Hnd)) in Hin.
  rewrite (dict_get_remove_eq d k Hnd) in Hin. discriminate.
Qed.

Lemma in_relocate_iff (d : py_dict) curr new p k q :
  List.NoDup (map fst d) ->
  In (k, q) (relocate d curr new p) <->
  (k = new /\ q = p) \/ (k <> new /\ k <> curr /\ In (k, q) d).
Proof.
  intros Hnd. split.
  - intros Hin. destruct (String.eqb_spec k new) as [->|Hn].
    + left. split; [reflexivity|].
      apply (NoDup_in_unique _ new q p (NoDup_relocate d curr new p Hnd) Hin).
      apply setitem_in.
    + right. split; [exact Hn|].
      apply in_setitem in Hin as [[-> _]|Hin]; [contradiction|].
      split; [|now apply in_dict_remove in Hin].
      intros ->. exact (not_in_dict_remove d curr q Hnd Hin).
  - intros [[-> ->]|(Hn & Hc & Hin)]; [apply setitem_in|].
    now apply relocate_keeps.
Qed.

Lemma length_dict_remove d k p :
  dict_get d k = Some p -> S (List.length (dict_remove d k)) = List.length d.
Proof.
  induction d as [|[k0 v0] d IH]; simpl; [discriminate|].
  destruct (String.eqb k k0); [reflexivity|].
  intros H. simpl. f_equal. now apply IH.
Qed.

Lemma length_setitem d k v :
  List.length (setitem d k v)
  = if dict_contains d k then List.length d else S (List.length d).
Proof.
  unfold dict_contains. induction d as [|[k0 v0] d IH]; simpl; [reflexivity|].
  destruct (String.eqb k k0); simpl; [reflexivity|].
  rewrite IH. now destruct (dict_get d k).
Qed.

Lemma length_relocate d curr new p :
  dict_get d curr = Some p -> curr <> new ->
  List.length (relocate d curr new p)
  = if dict_contains d new then pred (List.length d) else List.length d.
Proof.
  intros Hp Hne. unfold relocate. rewrite length_setitem.
  unfold dict_contains. rewrite dict_get_remove_ne by congruence.
  rewrite <- (length_dict_remove d curr p Hp).
  now destruct (dict_get d new).
Qed.

Lemma make_move_true_relocates self curr new self' :
  make_move self curr new = (self', Ok true) ->
  can_make_move self (_board self) curr new false = Ok true /\
  exists p,
    dict_get (_board self) curr = Some p /\
    _board self' = relocate (_board self) curr new p /\
    _board_size self' = _board_size self /\
    _turn self' <> _turn self.
Proof.
  intros Hmm.
  assert (Hcan : can_make_move self (_board self) curr new false = Ok true).
  { unfold make_move in Hmm.
    destruct (can_make_move self (_board self) curr new false) as [[]|];
      [reflexivity|discriminate|discriminate]. }
  split; [exact Hcan|].
  pose proof (can_make_move_with_true_unfinished _ _ _ _ _ _ Hcan) as Hst.
  destruct (make_move_accepted _ _ _ _ _ Hcan Hmm) as (p & Hp & Hu & _).
  exists p. split; [exact Hp|].
  set (s1 := change_turns _) in Hu.
  destruct (change_turns_fields
    (set_board self (relocate (_board self) curr new p)))
    as (Hb & Hsz & Hg & Hs & Ht). fold s1 in Hb, Hsz, Hg, Hs, Ht. simpl in *.
  assert (Hs1 : _state s1 = UNFINISHED) by congruence.
  destruct (update_game_state_spec s1 self' _ Hs1 Hu)
    as (wk & bk & w & b & _ & _ & _ & -> & _).
  simpl. auto.
Qed.

Lemma make_move_true_outcome self curr new self' :
  make_move self curr new = (self', Ok true) ->
  exists wk bk w b,
    locate_kings (_board self') = Ok (wk, bk) /\
    at_highest_rank self' wk = Ok w /\
    at_highest_rank self' bk = Ok b /\
    (_state self', _game_end_imminent self')
    = recomputed_state w b (_game_end_imminent self).
Proof.
  intros Hmm.
  destruct (make_move_true_relocates _ _ _ _ Hmm) as (Hcan & _).
  pose proof (can_make_move_with_true_unfinished _ _ _ _ _ _ Hcan) as Hst.
  destruct (make_move_accepted _ _ _ _ _ Hcan Hmm) as (p & _ & Hu & _).
  set (s1 := change_turns _) in Hu.
  destruct (change_turns_fields
    (set_board self (relocate (_board self) curr new p)))
    as (_ & _ & Hg & Hs & _). fold s1 in Hg, Hs. simpl in *.
  assert (Hs1 : _state s1 = UNFINISHED) by congruence.
  destruct (update_game_state_spec s1 self' _ Hs1 Hu)
    as (wk & bk & w & b & Hk & Hw & Hbk & -> & _).
  exists wk, bk, w, b. simpl. rewrite Hg.
  repeat split; try assumption.
  now destruct (recomputed_state w b (_game_end_imminent self)).
Qed.

(** An accepted move takes the piece of the side to move from the source
    to the destination, which is another square: afterwards the
    destination holds that piece, the source is empty, every other
    square is as before, the board has one piece less when the
    destination was occupied and as many otherwise, and the turn has
    passed to the other side. *)
Theorem accepted_move_effect self curr new self' :
  reachable self ->
  make_move self curr new = (self', Ok true) ->
  exists p,
    get_piece_at_square (_board self) curr = Some p /\
    get_color p = _turn self /\
    curr <> new /\
    get_piece_at_square (_board self') new = Some p /\
    get_piece_at_square (_board self') curr = None /\
    (forall k, k <> curr -> k <> new ->
       get_piece_at_square (_board self') k
       = get_piece_at_square (_board self) k) /\
    List.length (_board self')
    = (if dict_contains (_board self) new
       then pred (List.length (_board self))
       else List.length (_board self)) /\
    _turn self' <> _turn self.
Proof.
  intros Hreach Hmm.
  destruct (make_move_true_relocates _ _ _ _ Hmm)
    as (Hcan & p & Hp & Hb & _ & Ht).
  pose proof (can_make_move_with_true_unfinished _ _ _ _ _ _ Hcan) as Hst.
  destruct (proj2 (reachable_session_ok self Hreach) Hst) as (Hnd & _ & _).
  assert (Hne : curr <> new).
  { intros ->. exact (null_move_not_accepted _ _ _ _ Hcan). }
  destruct (can_make_move_true_piece _ _ _ _ Hcan) as (p' & Hp' & Hc & _).
  rewrite Hp in Hp'. injection Hp' as <-.
  exists p. rewrite !get_piece_at_square_get, Hb.
  split; [exact Hp|]. split; [exact Hc|]. split; [exact Hne|].
  split; [apply dict_get_setitem_eq|]. split.
  { unfold relocate. rewrite dict_get_setitem_ne by exact Hne.
    now apply dict_get_remove_eq. }
  split.
  { intros k Hk1 Hk2. rewrite !get_piece_at_square_get. unfold relocate.
    rewrite dict_get_setitem_ne by exact Hk2.
    now apply dict_get_remove_ne. }
  split; [now apply length_relocate|exact Ht].
Qed.

Lemma accepted_move_effect_witness :
  exists p,
    get_piece_at_square (_board new_ChessVar) "c1" = Some p /\
    get_color p = _turn new_ChessVar /\
    "c1" <> "d3" /\
    get_piece_at_square (_board (fst (make_move new_ChessVar "c1" "d3"))) "d3"
    = Some p /\
    get_piece_at_square (_board (fst (make_move new_ChessVar "c1" "d3"))) "c1"
    = None /\
    (forall k, k <> "c1" -> k <> "d3" ->
       get_piece_at_square (_board (fst (make_move new_ChessVar "c1" "d3"))) k
       = get_piece_at_square (_board new_ChessVar) k) /\
    List.length (_board (fst (make_move new_ChessVar "c1" "d3")))
    = (if dict_contains (_board new_ChessVar) "d3"
       then pred (List.length (_board new_ChessVar))
       else List.length (_board new_ChessVar)) /\
    _turn (fst (make_move new_ChessVar "c1" "d3")) <> _turn new_ChessVar.
Proof.
  apply (accepted_move_effect new_ChessVar "c1" "d3").
  - exact reachable_new.
  - vm_compute. reflexivity.
Defined.

(* ================================================================= *)
(** ** Invariants of the position *)

Lemma is_valid_square_ext s1 s2 k :
  _board_size s1 = _board_size s2 ->
  is_valid_square s1 k = is_valid_square s2 k.
Proof. intros H. unfold is_valid_square. now rewrite H. Qed.

Lemma at_highest_rank_ext s1 s2 k :
  _board_size s1 = _board_size s2 ->
  at_highest_rank s1 k = at_highest_rank s2 k.
Proof. intros H. unfold at_highest_rank. now rewrite H. Qed.

Lemma locate_kings_only board wk bk kw kb :
  only_king White board kw -> only_king Black board kb ->
  locate_kings board = Ok (wk, bk) -> wk = kw /\ bk = kb.
Proof.
  intros Hw Hb [Hinw Hinb]%locate_kings_in.
  split; [now apply Hw|now apply Hb].
Qed.

Lemma only_king_locate board kw kb :
  only_king White board kw -> only_king Black board kb ->
  locate_kings board = Ok (kw, kb).
Proof.
  intros Hw Hb.
  destruct (locate_kings_total board kw kb) as (wk & bk & Hk).
  - now apply Hw.
  - now apply Hb.
  - destruct (locate_kings_only _ _ _ _ _ Hw Hb Hk) as [-> ->]. exact Hk.
Qed.

(** In a session that satisfies the invariant no move that passes the
    guards lands on a king. *)
Lemma no_king_capture self curr new c kw kb :
  session_ok self ->
  only_king White (_board self) kw -> only_king Black (_board self) kb ->
  can_make_move_hypothetical self (_board self) curr new = Ok true ->
  dict_get (_board self) new <> Some (King c).
Proof.
  intros [_ Hok] Hkw Hkb Hpass Hn.
  destruct (can_make_move_hypothetical_true _ _ _ _ Hpass)
    as (Hst & _ & p & Hp & Hcap).
  destruct (Hok Hst) as (Hnd & _ & Hsafe).
  destruct (gives_check_located _ _ _ Hsafe) as (wk & bk & Hk & Hloop).
  destruct (locate_kings_only _ _ _ _ _ Hkw Hkb Hk) as [-> ->].
  destruct (check_loop_false _ _ _ _ _ Hloop curr p (dict_get_in _ _ _ Hp))
    as [Hblack Hwhite].
  pose proof (Hcap _ Hn) as Hne. simpl in Hne.
  apply dict_get_in in Hn.
  destruct c, (get_color p) eqn:Ec; try contradiction.
  - apply Hkw in Hn. subst new.
    rewrite (Hblack eq_refl) in Hpass. discriminate.
  - apply Hkb in Hn. subst new.
    rewrite (Hwhite eq_refl) in Hpass. discriminate.
Qed.

(** Where the king of colour [c] stands after a move that did not land
    on it. *)
Lemma only_king_relocate board curr new p c k :
  List.NoDup (map fst board) ->
  dict_get board curr = Some p ->
  dict_get board new <> Some (King c) ->
  only_king c board k ->
  only_king c (relocate board curr new p)
    (if String.eqb k curr then new else k).
Proof.
  intros Hnd Hp Hn Hk k'. rewrite (in_relocate_iff board curr new p) by exact Hnd.
  destruct (String.eqb_spec k curr) as [->|Hkc].
  - assert (p = King c) as ->.
    { apply (NoDup_in_unique board curr _ _ Hnd (dict_get_in _ _ _ Hp)).
      now apply Hk. }
    split; [|intros ->; now left].
    intros [[-> _]|(_ & Hc & Hin)]; [reflexivity|].
    apply Hk in Hin. contradiction.
  - split.
    + intros [[-> <-]|(_ & _ & Hin)]; [|now apply Hk].
      exfalso. apply Hkc. symmetry. apply Hk. now apply dict_get_in.
    + intros ->. right. split; [|split; [exact Hkc|now apply Hk]].
      intros ->. apply Hn. apply in_dict_get; [exact Hnd|]. now apply Hk.
Qed.

Lemma position_ok_new : position_ok new_ChessVar.
Proof.
  split; [exact (proj1 (proj2 session_ok_new eq_refl))|].
  split.
  { intros k p Hin. simpl in Hin.
    repeat (destruct Hin as [[= <- <-]|Hin]; [reflexivity|]). contradiction. }
  split; [simpl; lia|].
  exists "a1", "h1".
  assert (Hboard : _board new_ChessVar
                   = [("a1", King White); ("a2", Rook White);
                      ("b1", Bishop White); ("b2", Bishop White);
                      ("c1", Knight White); ("c2", Knight White);
                      ("h1", King Black); ("h2", Rook Black);
                      ("g1", Bishop Black); ("g2", Bishop Black);
                      ("f1", Knight Black); ("f2", Knight Black)])
    by reflexivity.
  unfold only_king. rewrite Hboard. split; intros k; split.
  - intros Hin.
    repeat (destruct Hin as [Heq|Hin]; [congruence|]). contradiction.
  - intros ->. now left.
  - intros Hin.
    repeat (destruct Hin as [Heq|Hin]; [congruence|]). contradiction.
  - intros ->. do 6 right. now left.
Qed.

Lemma outcome_ok_new : outcome_ok new_ChessVar.
Proof.
  exists "a1", "h1", false, false. repeat split; try reflexivity.
  discriminate.
Qed.

Lemma at_highest_rank_bool self k v1 v2 :
  at_highest_rank self k = Ok v1 -> at_highest_rank self k = Ok v2 -> v1 = v2.
Proof. congruence. Qed.

(** The step of the invariants through an accepted move. *)
Lemma accepted_move_invariants self curr new self' :
  session_ok self -> position_ok self -> outcome_ok self ->
  make_move self curr new = (self', Ok true) ->
  position_ok self' /\ outcome_ok self'.
Proof.
  intros Hok (Hnd & Hkeys & Hlen & kw & kb & Hkw & Hkb)
         (wk0 & bk0 & w0 & b0 & Hk0 & Hw0 & Hb0 & Hout) Hmm.
  destruct (locate_kings_only _ _ _ _ _ Hkw Hkb Hk0) as [-> ->].
  destruct (make_move_true_relocates _ _ _ _ Hmm)
    as (Hcan & p & Hp & Hb & Hsz & Ht).
  pose proof (can_make_move_with_true_unfinished _ _ _ _ _ _ Hcan) as Hst.
  rewrite Hst in Hout. destruct Hout as (-> & Hflag & Hturn).
  assert (Hne : curr <> new).
  { intros ->. exact (null_move_not_accepted _ _ _ _ Hcan). }
  destruct (can_make_move_true_piece _ _ _ _ Hcan)
    as (p' & Hp' & Hc & Hpass & Hvalid).
  rewrite Hp in Hp'. injection Hp' as <-.
  set (hyp := relocate (_board self) curr new p) in *.
  set (kw' := if String.eqb kw curr then new else kw).
  set (kb' := if String.eqb kb curr then new else kb).
  assert (Hkw' : only_king White hyp kw').
  { apply only_king_relocate; try assumption.
    exact (no_king_capture self curr new White kw kb Hok Hkw Hkb Hpass). }
  assert (Hkb' : only_king Black hyp kb').
  { apply only_king_relocate; try assumption.
    exact (no_king_capture self curr new Black kw kb Hok Hkw Hkb Hpass). }
  split.
  { (* the shape of the new board *)
    rewrite <- Hb in Hkw', Hkb'. unfold position_ok. rewrite Hb.
    split; [now apply NoDup_relocate|]. split.
    - intros k q [[-> _]|Hin]%in_relocate;
        rewrite (is_valid_square_ext self' self) by exact Hsz; eauto.
    - split.
      + unfold hyp. rewrite (length_relocate _ _ _ _ Hp Hne).
        destruct (dict_contains (_board self) new); lia.
      + rewrite <- Hb. eauto. }
  (* state, flag and turn *)
  destruct (make_move_true_outcome _ _ _ _ Hmm)
    as (wk & bk & w & b & Hk & Hw & Hbk & Hrec).
  rewrite Hb in Hk.
  destruct (locate_kings_only _ _ _ _ _ Hkw' Hkb' Hk) as [-> ->].
  exists kw', kb', w, b. rewrite Hb.
  split; [exact Hk|]. split; [exact Hw|]. split; [exact Hbk|].
  (* the white king moves only on White's turn *)
  assert (Hstay : _turn self = Black -> w = w0).
  { intros Hblack. subst kw'.
    destruct (String.eqb_spec kw curr) as [->|_].
    - exfalso.
      assert (p = King White).
      { apply (NoDup_in_unique (_board self) curr _ _ Hnd
                 (dict_get_in _ _ _ Hp)). now apply Hkw. }
      subst p. simpl in Hc. congruence.
    - rewrite (at_highest_rank_ext self' self) in Hw by exact Hsz.
      congruence. }
  assert (Hmoved : w <> w0 -> _turn self' = Black).
  { intros Hdiff. destruct (_turn self) eqn:E1, (_turn self') eqn:E2;
      try reflexivity; try contradiction.
    now destruct Hdiff, Hstay. }
  unfold recomputed_state in Hrec.
  destruct b, w, (_game_end_imminent self) eqn:Eg; simpl in Hrec;
    injection Hrec as Hs' Hf'; rewrite Hs'; rewrite ?Hf'; subst w0;
    repeat split; auto; try discriminate.
  (* in progress with the flag set: the white king would have left the
     goal on Black's turn *)
  exfalso. specialize (Hstay (Hturn eq_refl)). discriminate.
Qed.

Lemma reachable_invariants self :
  reachable self -> position_ok self /\ outcome_ok self.
Proof.
  induction 1 as [|self curr new Hreach [Hpos Hout]];
    [split; [exact position_ok_new|exact outcome_ok_new]|].
  pose proof (reachable_session_ok self Hreach) as Hok.
  destruct (can_make_move self (_board self) curr new false) as [[]|] eqn:E.
  - destruct (accepted_move_ok self curr new Hok E) as (self' & Hmm & _).
    rewrite Hmm. simpl.
    exact (accepted_move_invariants self curr new self' Hok Hpos Hout Hmm).
  - rewrite make_move_rejected_state by (rewrite E; discriminate). auto.
  - rewrite make_move_rejected_state by (rewrite E; discriminate). auto.
Qed.

Lemma only_king_get board c k :
  List.NoDup (map fst board) -> only_king c board k ->
  forall k', get_piece_at_square board k' = Some (King c) <-> k' = k.
Proof.
  intros Hnd Hk k'. rewrite get_piece_at_square_get, <- (Hk k'). split.
  - apply dict_get_in.
  - now apply in_dict_get.
Qed.

(** On every session reached from a new game the board has distinct
    keys, every key is a square that [is_valid_square] accepts, there
    are at most twelve pieces, and exactly one square holds a white king
    and exactly one a black king, which are the squares [locate_kings]
    returns: no king is ever captured and [locate_kings] never raises. *)
Theorem reachable_position self :
  reachable self ->
  List.NoDup (map fst (_board self)) /\
  (forall k p, In (k, p) (_board self) -> is_valid_square self k = Ok true) /\
  (List.length (_board self) <= 12)%nat /\
  exists wk bk,
    locate_kings (_board self) = Ok (wk, bk) /\
    (forall k, get_piece_at_square (_board self) k = Some (King White)
               <-> k = wk) /\
    (forall k, get_piece_at_square (_board self) k = Some (King Black)
               <-> k = bk).
Proof.
  intros Hreach.
  destruct (reachable_invariants self Hreach)
    as [(Hnd & Hkeys & Hlen & wk & bk & Hw & Hb) _].
  repeat (split; [assumption|]). exists wk, bk.
  split; [now apply only_king_locate|].
  split; now apply only_king_get.
Qed.

Lemma reachable_position_witness :
  List.NoDup (map fst (_board (fst (make_move new_ChessVar "c1" "d3")))) /\
  (forall k p, In (k, p) (_board (fst (make_move new_ChessVar "c1" "d3"))) ->
     is_valid_square (fst (make_move new_ChessVar "c1" "d3")) k = Ok true) /\
  (List.length (_board (fst (make_move new_ChessVar "c1" "d3"))) <= 12)%nat /\
  exists wk bk,
    locate_kings (_board (fst (make_move new_ChessVar "c1" "d3")))
    = Ok (wk, bk) /\
    (forall k,
       get_piece_at_square (_board (fst (make_move new_ChessVar "c1" "d3"))) k
       = Some (King White) <-> k = wk) /\
    (forall k,
       get_piece_at_square (_board (fst (make_move new_ChessVar "c1" "d3"))) k
       = Some (King Black) <-> k = bk).
Proof.
  apply (reachable_position (fst (make_move new_ChessVar "c1" "d3"))).
  apply reachable_move, reachable_new.
Defined.

(** While a game reached from a new game is in progress no check
    stands: no piece of either colour can reach the square of the
    opposing king under the hypothetical-mode test. *)
Theorem reachable_no_check self :
  reachable self ->
  _state self = UNFINISHED ->
  exists wk bk,
    locate_kings (_board self) = Ok (wk, bk) /\
    ~ some_piece_reaches_king self (_board self) wk bk.
Proof.
  intros Hreach Hst.
  destruct (proj2 (reachable_session_ok self Hreach) Hst) as (_ & _ & Hsafe).
  destruct (gives_check_located _ _ _ Hsafe) as (wk & bk & Hk & Hloop).
  exists wk, bk. split; [exact Hk|].
  intros H%(some_piece_reaches_king_iff _ _ _ _ _ Hloop). discriminate.
Qed.

Lemma reachable_no_check_witness :
  exists wk bk,
    locate_kings (_board (fst (make_move new_ChessVar "c1" "d3")))
    = Ok (wk, bk) /\
    ~ some_piece_reaches_king (fst (make_move new_ChessVar "c1" "d3"))
        (_board (fst (make_move new_ChessVar "c1" "d3"))) wk bk.
Proof.
  apply (reachable_no_check (fst (make_move new_ChessVar "c1" "d3"))).
  - apply reachable_move, reachable_new.
  - reflexivity.
Defined.

Lemma reachable_play self moves :
  reachable self -> reachable (play self moves).
Proof.
  revert self. induction moves as [|[c n] moves IH]; intros self H;
    [exact H|].
  simpl. apply IH. now apply reachable_move.
Qed.

Lemma at_highest_rank_rank self s v :
  at_highest_rank self s = Ok v ->
  exists r, rank_of s = Ok r /\ v = (r =? _board_size self).
Proof.
  unfold at_highest_rank, rank_of.
  destruct (getitem s 1) as [c|]; simpl; [|discriminate].
  destruct (int c) as [r|]; simpl; [|discriminate].
  intros [= <-]. now exists r.
Qed.

Lemma king_rank self k p :
  position_ok self -> In (k, p) (_board self) ->
  forall r, rank_of k = Ok r -> 1 <= r <= _board_size self.
Proof.
  intros (_ & Hkeys & _) Hin r Hr.
  destruct (is_valid_square_true_coords self k (Hkeys k p Hin))
    as (f & r' & _ & Hr' & _ & Hb & _).
  congruence.
Qed.

(** On every session reached from a new game the state tells on which
    ranks the kings stand, the ranks being read off the squares that
    [locate_kings] returns and the farthest rank being rank 8: in
    progress the black king is not on rank 8 and the grace flag is set
    exactly when the white king is on rank 8, in which case Black is to
    move; [BLACK_WON] means the black king is on rank 8 and the white
    king is not, [TIE] that both are, [WHITE_WON] that the white king is
    and the black king is not, with the grace flag set. *)
Theorem reachable_outcome self :
  reachable self ->
  exists wk bk rw rb,
    locate_kings (_board self) = Ok (wk, bk) /\
    rank_of wk = Ok rw /\ rank_of bk = Ok rb /\
    _board_size self = 8 /\ 1 <= rw <= 8 /\ 1 <= rb <= 8 /\
    match _state self with
    | UNFINISHED =>
        rb <> 8 /\ (_game_end_imminent self = true <-> rw = 8) /\
        (rw = 8 -> _turn self = Black)
    | BLACK_WON => rb = 8 /\ rw <> 8
    | TIE => rb = 8 /\ rw = 8
    | WHITE_WON => rw = 8 /\ rb <> 8 /\ _game_end_imminent self = true
    end.
Proof.
  intros Hreach.
  destruct (reachable_invariants self Hreach)
    as [Hpos (wk & bk & w & b & Hk & Hw & Hb & Hout)].
  pose proof (proj1 (reachable_session_ok self Hreach)) as Hsz.
  destruct (at_highest_rank_rank _ _ _ Hw) as (rw & Hrw & ->).
  destruct (at_highest_rank_rank _ _ _ Hb) as (rb & Hrb & ->).
  destruct (locate_kings_in _ _ _ Hk) as [Hinw Hinb].
  pose proof (king_rank self wk _ Hpos Hinw rw Hrw) as Bw.
  pose proof (king_rank self bk _ Hpos Hinb rb Hrb) as Bb.
  rewrite Hsz in *.
  exists wk, bk, rw, rb. repeat (split; [assumption || lia|]).
  destruct (Z.eqb_spec rw 8) as [Ew|Ew], (Z.eqb_spec rb 8) as [Eb|Eb];
    destruct (_state self); destruct Hout as (H1 & H2);
    try discriminate; try (destruct H2 as (H2 & H3));
    repeat split; auto; try discriminate; try congruence.
Qed.

Lemma reachable_outcome_witness :
  let told (self : ChessVar) :=
    exists wk bk rw rb,
      locate_kings (_board self) = Ok (wk, bk) /\
      rank_of wk = Ok rw /\ rank_of bk = Ok rb /\
      _board_size self = 8 /\ 1 <= rw <= 8 /\ 1 <= rb <= 8 /\
      match _state self with
      | UNFINISHED =>
          rb <> 8 /\ (_game_end_imminent self = true <-> rw = 8) /\
          (rw = 8 -> _turn self = Black)
      | BLACK_WON => rb = 8 /\ rw <> 8
      | TIE => rb = 8 /\ rw = 8
      | WHITE_WON => rw = 8 /\ rb <> 8 /\ _game_end_imminent self = true
      end in
  (_state (play new_ChessVar (game_white_reaches_goal ++ [("a7", "b8")]))
   = UNFINISHED /\
   told (play new_ChessVar (game_white_reaches_goal ++ [("a7", "b8")]))) /\
  (_state (play new_ChessVar
             (game_white_reaches_goal ++ [("a7", "b8"); ("e3", "f1")]))
   = WHITE_WON /\
   told (play new_ChessVar
           (game_white_reaches_goal ++ [("a7", "b8"); ("e3", "f1")]))) /\
  (_state (play new_ChessVar (game_both_reach_goal ++ [("g7", "g8")])) = TIE /\
   told (play new_ChessVar (game_both_reach_goal ++ [("g7", "g8")]))) /\
  (_state (play new_ChessVar (game_black_reaches_goal ++ [("f7", "g8")]))
   = BLACK_WON /\
   told (play new_ChessVar (game_black_reaches_goal ++ [("f7", "g8")]))).
Proof.
  intros told. unfold told.
  split; [|split; [|split]];
    (split; [vm_compute; reflexivity|]);
    apply reachable_outcome; apply reachable_play, reachable_new.
Defined.

(** The grace turn lasts one move: when the grace flag is set in a game
    in progress, Black is to move, and the next accepted move ends the
    game, as a tie or as a win for White. *)
Theorem grace_turn_ends_game self curr new self' :
  reachable self ->
  _state self = UNFINISHED ->
  _game_end_imminent self = true ->
  make_move self curr new = (self', Ok true) ->
  _turn self = Black /\ (_state self' = TIE \/ _state self' = WHITE_WON).
Proof.
  intros Hreach Hst Hflag Hmm.
  destruct (reachable_invariants self Hreach)
    as [(Hnd & _ & _ & kw & kb & Hkw & Hkb)
        (wk & bk & w & b & Hk & Hw & Hb & Hout)].
  destruct (locate_kings_only _ _ _ _ _ Hkw Hkb Hk) as [-> ->].
  rewrite Hst in Hout. destruct Hout as (-> & Hfw & Hturn).
  rewrite Hflag in Hfw. subst w. specialize (Hturn eq_refl).
  split; [exact Hturn|].
  pose proof (reachable_session_ok self Hreach) as Hok.
  destruct (make_move_true_relocates _ _ _ _ Hmm)
    as (Hcan & p & Hp & Hbd & Hsz & _).
  destruct (can_make_move_true_piece _ _ _ _ Hcan)
    as (p' & Hp' & Hc & Hpass & _).
  rewrite Hp in Hp'. injection Hp' as <-.
  pose proof (only_king_relocate _ curr new p White kw Hnd Hp
                (no_king_capture self curr new White kw kb Hok Hkw Hkb Hpass)
                Hkw) as Hkw'.
  destruct (String.eqb_spec kw curr) as [->|_].
  { exfalso. assert (p = King White).
    { apply (NoDup_in_unique (_board self) curr _ _ Hnd
               (dict_get_in _ _ _ Hp)). now apply Hkw. }
    subst p. simpl in Hc. congruence. }
  destruct (make_move_true_outcome _ _ _ _ Hmm)
    as (wk' & bk' & w' & b' & Hk' & Hw' & Hb' & Hrec).
  rewrite Hbd in Hk'. apply locate_kings_in in Hk' as [Hin _].
  apply Hkw' in Hin. subst wk'.
  rewrite (at_highest_rank_ext self' self) in Hw' by exact Hsz.
  assert (w' = true) as -> by congruence.
  rewrite Hflag in Hrec. unfold recomputed_state in Hrec.
  destruct b'; simpl in Hrec; injection Hrec as -> _; auto.
Qed.

Lemma grace_turn_ends_game_witness :
  let self :=
    play new_ChessVar
      [("a2", "a8"); ("f1", "e3"); ("a1", "a2"); ("e3", "f1");
       ("a2", "a3"); ("f1", "e3"); ("a3", "a4"); ("e3", "f1");
       ("a4", "a5"); ("f1", "e3"); ("a5", "a6"); ("e3", "f1");
       ("a6", "a7"); ("f1", "e3"); ("a7", "b8")] in
  _turn self = Black /\
  (_state (fst (make_move self "e3" "f1")) = TIE \/
   _state (fst (make_move self "e3" "f1")) = WHITE_WON).
Proof.
  intros self.
  apply (grace_turn_ends_game self "e3" "f1").
  - apply reachable_play, reachable_new.
  - vm_compute. reflexivity.
  - vm_compute. reflexivity.
  - vm_compute. reflexivity.
Defined.

(* ================================================================= *)
(** ** The move on the store *)

(** On the store an accepted [make_move] changes the live board
    dictionary in place: the engine keeps the same board reference, the
    dictionary behind it becomes the board with the piece relocated (so
    every alias of the board sees the move), and every other dictionary
    that existed before is untouched. *)
Theorem make_move_ref_in_place h self curr new h' self' :
  is_Some (h !! board_loc self) ->
  make_move_ref h self curr new = (h', self', Ok true) ->
  board_loc self' = board_loc self /\
  (exists p,
     get_piece_at_square (deref h (board_loc self)) curr = Some p /\
     deref h' (board_loc self)
     = relocate (deref h (board_loc self)) curr new p) /\
  (forall l, l <> board_loc self -> is_Some (h !! l) -> h' !! l = h !! l).
Proof.
  intros Hlive Hmm.
  destruct (make_move_ref_spec _ _ _ _ _ _ _ Hlive Hmm)
    as (Hpure & Hloc & Hframe).
  split; [exact Hloc|]. split; [|exact Hframe].
  destruct (make_move_true_relocates _ _ _ _ Hpure)
    as (_ & p & Hp & Hb & _).
  exists p. simpl in Hp, Hb. rewrite get_piece_at_square_get.
  split; [exact Hp|]. rewrite Hloc in Hb. exact Hb.
Qed.

Lemma make_move_ref_in_place_witness :
  let h : gmap loc py_dict :=
    {[ 1%positive := _board new_ChessVar; 2%positive := [] ]} in
  let self := mkChessVarObj 1%positive 8 White false UNFINISHED in
  let res := make_move_ref h self "c1" "d3" in
  board_loc (snd (fst res)) = board_loc self /\
  (exists p,
     get_piece_at_square (deref h (board_loc self)) "c1" = Some p /\
     deref (fst (fst res)) (board_loc self)
     = relocate (deref h (board_loc self)) "c1" "d3" p) /\
  (forall l, l <> board_loc self -> is_Some (h !! l) ->
             fst (fst res) !! l = h !! l).
Proof.
  intros h self res.
  apply (make_move_ref_in_place h self "c1" "d3").
  - vm_compute. eauto.
  - vm_compute. reflexivity.
Defined.

(* ================================================================= *)
(** ** Which exceptions can be raised *)

(** [is_valid_square] on any text: [IndexError] on the empty text and on
    a one-character text whose file is on the board, [ValueError] when
    the file is on the board and the second character is no digit,
    [False] when the file is off the board whatever follows, and the
    rank test otherwise. *)
Theorem is_valid_square_cases self s :
  is_valid_square self s
  = match s with
    | EmptyString => Raise IndexError
    | String c0 rest =>
        if (97 <=? ord c0) && (ord c0 <=? 97 + _board_size self - 1) then
          match rest with
          | EmptyString => Raise IndexError
          | String c1 _ =>
              if (48 <=? ord c1) && (ord c1 <=? 57)
              then Ok ((1 <=? ord c1 - 48) && (ord c1 - 48 <=? _board_size self))
              else Raise ValueError
          end
        else Ok false
    end.
Proof.
  unfold is_valid_square, getitem, int.
  destruct s as [|c0 [|c1 rest]]; simpl; try reflexivity.
  - now destruct (_ && _).
  - destruct ((97 <=? ord c0) && _); simpl; [|reflexivity].
    destruct ((48 <=? ord c1) && _); simpl; [|reflexivity].
    now destruct ((1 <=? ord c1 - 48) && _).
Qed.

Lemma bind_not_KeyError {A B : Type} (m : result A) (k : A -> result B) :
  m <> Raise KeyError -> (forall a, k a <> Raise KeyError) ->
  bind m k <> Raise KeyError.
Proof.
  intros Hm Hk. destruct m as [a|e]; simpl; [apply Hk|].
  intros [= ->]. now apply Hm.
Qed.

Lemma is_valid_square_not_KeyError self s :
  is_valid_square self s <> Raise KeyError.
Proof.
  intros H. unfold is_valid_square in H.
  destruct (getitem s 0) as [c0|e0] eqn:E0; simpl in H;
    [|apply getitem_raise in E0; congruence].
  destruct (negb _); [discriminate|].
  destruct (getitem s 1) as [c1|e1] eqn:E1; simpl in H;
    [|apply getitem_raise in E1; congruence].
  destruct (int c1) as [r|e2] eqn:E2; simpl in H;
    [|apply int_raise in E2; congruence].
  destruct (negb _); discriminate.
Qed.

Lemma getitem_not_KeyError s i : getitem s i <> Raise KeyError.
Proof. intros H%getitem_raise. discriminate. Qed.

Lemma int_not_KeyError c : int c <> Raise KeyError.
Proof. intros H%int_raise. discriminate. Qed.

Ltac no_KeyError H :=
  repeat (case_match; simpl in H); try discriminate;
  repeat match goal with
  | E : getitem _ _ = Raise _ |- _ => apply getitem_raise in E; subst
  | E : int _ = Raise _ |- _ => apply int_raise in E; subst
  end;
  try discriminate; try congruence.

Lemma valid_move_not_KeyError p a b : valid_move p a b <> Raise KeyError.
Proof.
  intros H. destruct p; simpl in H;
    unfold King_valid_move, Knight_valid_move, Bishop_valid_move,
      Rook_valid_move, abs_rank_delta, py_and, bind in H;
    no_KeyError H.
Qed.

Lemma pair_up_not_KeyError chars nums idxs :
  pair_up chars nums idxs <> Raise KeyError.
Proof.
  induction idxs as [|i idxs IH]; simpl; [discriminate|].
  repeat case_match; try discriminate.
  apply bind_not_KeyError; [exact IH|discriminate].
Qed.

Lemma get_squares_between_not_KeyError a b :
  get_squares_between a b <> Raise KeyError.
Proof.
  unfold get_squares_between.
  repeat first
    [ apply bind_not_KeyError;
      [first [apply getitem_not_KeyError | apply int_not_KeyError]|intros ?]
    | apply pair_up_not_KeyError
    | discriminate
    | case_match ].
Qed.

Lemma can_make_move_with_not_KeyError rc self board curr new hypo :
  (forall p, get_piece_at_square board curr = Some p ->
             rc curr new <> Raise KeyError) ->
  can_make_move_with rc self board curr new hypo <> Raise KeyError.
Proof.
  intros Hrc. unfold can_make_move_with.
  destruct (negb (game_state_eqb (_state self) UNFINISHED)); [discriminate|].
  destruct (get_piece_at_square board curr) as [p|] eqn:Ep; [|discriminate].
  destruct (negb hypo && _); [discriminate|].
  apply bind_not_KeyError; [apply is_valid_square_not_KeyError|intros v].
  destruct (negb v); [discriminate|].
  apply bind_not_KeyError; [apply valid_move_not_KeyError|intros w].
  destruct (negb w); [discriminate|].
  destruct (match get_piece_at_square board new with
            | Some target => color_eqb (get_color target) (get_color p)
            | None => false end); [discriminate|].
  apply bind_not_KeyError.
  { destruct (negb (can_jump p)); [|discriminate].
    apply bind_not_KeyError; [apply get_squares_between_not_KeyError|].
    discriminate. }
  intros blocked. destruct blocked; [discriminate|].
  apply bind_not_KeyError.
  { destruct (negb hypo); [now apply (Hrc p)|discriminate]. }
  intros chk. destruct chk; discriminate.
Qed.

Lemma check_loop_not_KeyError self hyp wk bk items :
  check_loop self hyp wk bk items <> Raise KeyError.
Proof.
  induction items as [|[k p] items IH]; simpl; [discriminate|].
  assert (Hh : forall a b,
             can_make_move_hypothetical self hyp a b <> Raise KeyError).
  { intros a b. apply can_make_move_with_not_KeyError. discriminate. }
  apply bind_not_KeyError.
  { unfold py_and. destruct (color_eqb _ _); [apply Hh|discriminate]. }
  intros v. destruct v; [discriminate|].
  apply bind_not_KeyError.
  { unfold py_and. destruct (color_eqb _ _); [apply Hh|discriminate]. }
  intros w. destruct w; [discriminate|exact IH].
Qed.

Lemma update_game_state_not_KeyError self :
  snd (update_game_state self) <> Raise KeyError.
Proof.
  intros H.
  unfold update_game_state, locate_kings, at_highest_rank, py_and_then,
    bind in H.
  no_KeyError H.
Qed.

(** [results_in_check] deletes the source key from its copy of the
    live board and so raises [KeyError] when the source square is empty
    there; as [can_make_move] calls it only after it has found a piece on
    the source square, [can_make_move] on the live board (and in
    hypothetical mode on any board) and [make_move] never raise
    [KeyError]. *)
Theorem KeyError_is_guarded self curr new :
  (get_piece_at_square (_board self) curr = None ->
   results_in_check self curr new = Raise KeyError) /\
  (forall hypo,
     can_make_move self (_board self) curr new hypo <> Raise KeyError) /\
  (forall board, can_make_move self board curr new true <> Raise KeyError) /\
  snd (make_move self curr new) <> Raise KeyError.
Proof.
  assert (Hcan : forall hypo,
            can_make_move self (_board self) curr new hypo <> Raise KeyError).
  { intros hypo. apply can_make_move_with_not_KeyError. intros p Hp.
    rewrite get_piece_at_square_get in Hp.
    rewrite (results_in_check_relocate self curr new p Hp).
    unfold gives_check.
    destruct (locate_kings _) as [[wk bk]|e] eqn:Ek; simpl.
    - apply check_loop_not_KeyError.
    - unfold locate_kings in Ek. repeat case_match; congruence. }
  split; [|split; [exact Hcan|split]].
  - rewrite get_piece_at_square_get. intros Hnone.
    unfold results_in_check, delitem, dict_contains. now rewrite Hnone.
  - intros board. rewrite can_make_move_hypothetical_eq.
    apply can_make_move_with_not_KeyError. discriminate.
  - unfold make_move.
    destruct (can_make_move self (_board self) curr new false)
      as [[]|e] eqn:E; simpl; try discriminate.
    + destruct (can_make_move_true_piece _ _ _ _ E) as (p & Hp & _).
      rewrite get_piece_at_square_get.
      unfold delitem, dict_contains. rewrite Hp.
      pose proof (update_game_state_not_KeyError
                    (change_turns (set_board self
                       (setitem (dict_remove (_board self) curr) new p)))).
      destruct (update_game_state _) as [s' [over|e]]; simpl in *;
        [discriminate|congruence].
    + intros [= ->]. now apply (Hcan false).
Qed.

(** In real mode [can_make_move] tests the board it is given but
    simulates the move on the live board: on a board that is not the
    live one it can raise [KeyError]. *)
Lemma can_make_move_foreign_board_KeyError :
  can_make_move new_ChessVar [("d4", Rook White)] "d4" "d5" false
  = Raise KeyError.
Proof. reflexivity. Qed.

(* ================================================================= *)
(** ** The input loop of [ChessUI] *)

Lemma make_move_answers self curr new :
  session_ok self -> square_text new = true ->
  exists b, snd (make_move self curr new) = Ok b.
Proof.
  intros Hok Htext.
  destruct (can_make_move_total self curr new Hok Htext) as [[] Hv].
  - destruct (accepted_move_ok self curr new Hok Hv) as (self' & -> & _).
    now exists true.
  - exists false. unfold make_move. now rewrite Hv.
Qed.

Lemma make_move_false_same self curr new self' :
  make_move self curr new = (self', Ok false) -> self' = self.
Proof.
  unfold make_move.
  destruct (can_make_move self (_board self) curr new false) as [[]|];
    [|congruence|congruence].
  destruct (delitem _ curr) as [d|]; [|congruence].
  destruct (get_piece_at_square _ curr); [|congruence].
  destruct (update_game_state _) as [s [over|e]]; congruence.
Qed.

Lemma pair_induction {A : Type} (P : list A -> Prop) :
  P [] -> (forall x, P [x]) ->
  (forall x y l, P l -> P (x :: y :: l)) ->
  forall l, P l.
Proof.
  intros H0 H1 H2.
  assert (H : forall l, P l /\ forall x, P (x :: l)).
  { induction l as [|y l [IH1 IH2]]; [split; auto|].
    split; [apply IH2|]. intros x. now apply H2. }
  intros l. apply H.
Qed.

(** On a session reached from a new game [user_to_move] never lets an
    exception of the engine through, whatever lines are typed.  Either
    the input runs out with the session unchanged, every complete pair
    of lines having been turned down; or exactly one move was made: the
    lines read split into pairs that were all turned down, followed by
    the first pair that passed [valid_entry] and that [make_move]
    accepted, and the session is the result of that one call. *)
Theorem user_to_move_spec engine inputs :
  reachable engine ->
  match user_to_move engine inputs with
  | (engine', rest, EngineRaised _) => False
  | (engine', rest, OutOfInput) =>
      engine' = engine /\ rest = [] /\
      (turned_down engine inputs \/
       exists pairs last,
         inputs = (pairs ++ [last])%list /\ turned_down engine pairs)
  | (engine', rest, Moved) =>
      reachable engine' /\
      exists skipped source end_,
        inputs = (skipped ++ source :: end_ :: rest)%list /\
        turned_down engine skipped /\
        valid_entry engine source = true /\
        valid_entry engine end_ = true /\
        make_move engine source end_ = (engine', Ok true)
  end.
Proof.
  intros Hreach. induction inputs as [| x | source end_ rest IH]
    using pair_induction; cbn [user_to_move].
  { split; [reflexivity|]. split; [reflexivity|]. now left. }
  { split; [reflexivity|]. split; [reflexivity|]. right.
    exists [], x. split; [reflexivity|exact I]. }
  assert (Hstep :
    valid_entry engine source && valid_entry engine end_ = false \/
    make_move engine source end_ = (engine, Ok false) ->
    match user_to_move engine rest with
    | (engine', rest', EngineRaised _) => False
    | (engine', rest', OutOfInput) =>
        engine' = engine /\ rest' = [] /\
        (turned_down engine (source :: end_ :: rest) \/
         exists pairs last,
           source :: end_ :: rest = (pairs ++ [last])%list /\
           turned_down engine pairs)
    | (engine', rest', Moved) =>
        reachable engine' /\
        exists skipped s e,
          source :: end_ :: rest = (skipped ++ s :: e :: rest')%list /\
          turned_down engine skipped /\
          valid_entry engine s = true /\
          valid_entry engine e = true /\
          make_move engine s e = (engine', Ok true)
    end).
  { intros Hdown.
    destruct (user_to_move engine rest) as [[engine' rest'] [| |e]];
      [| |exact IH].
    - destruct IH as (Hr & skipped & s & e & -> & Hsk & Hs & He & Hmm).
      split; [exact Hr|].
      exists (source :: end_ :: skipped), s, e.
      split; [reflexivity|]. split; [exact (conj Hdown Hsk)|].
      split; [exact Hs|]. split; [exact He|exact Hmm].
    - destruct IH as (-> & -> & [Hall|(pairs & last & -> & Hall)]).
      + split; [reflexivity|]. split; [reflexivity|]. left.
        exact (conj Hdown Hall).
      + split; [reflexivity|]. split; [reflexivity|]. right.
        exists (source :: end_ :: pairs), last.
        split; [reflexivity|exact (conj Hdown Hall)]. }
  destruct (valid_entry engine source && valid_entry engine end_) eqn:Ev.
  2: { apply Hstep. now left. }
  apply andb_true_iff in Ev as [Es Ee].
  pose proof (reachable_session_ok engine Hreach) as Hok.
  destruct (make_move_answers engine source end_ Hok
              (valid_entry_square_text engine end_ (proj1 Hok) Ee))
    as (b & Hb).
  destruct (make_move engine source end_) as [engine1 r] eqn:Emm.
  simpl in Hb. subst r. destruct b.
  - split.
    + change engine1 with (fst (engine1, @Ok bool true)). rewrite <- Emm.
      now apply reachable_move.
    + exists [], source, end_.
      split; [reflexivity|]. split; [exact I|].
      split; [exact Es|]. split; [exact Ee|exact Emm].
  - pose proof (make_move_false_same _ _ _ _ Emm) as ->.
    apply Hstep. now right.
Qed.

Lemma user_to_move_spec_witness :
  match user_to_move new_ChessVar ["a1"; "a2"; "zz"; "c1"; "c1"; "d3"; "h2"]
  with
  | (engine', rest, EngineRaised _) => False
  | (engine', rest, OutOfInput) =>
      engine' = new_ChessVar /\ rest = [] /\
      (turned_down new_ChessVar
         ["a1"; "a2"; "zz"; "c1"; "c1"; "d3"; "h2"] \/
       exists pairs last,
         ["a1"; "a2"; "zz"; "c1"; "c1"; "d3"; "h2"]
         = (pairs ++ [last])%list /\ turned_down new_ChessVar pairs)
  | (engine', rest, Moved) =>
      reachable engine' /\
      exists skipped source end_,
        ["a1"; "a2"; "zz"; "c1"; "c1"; "d3"; "h2"]
        = (skipped ++ source :: end_ :: rest)%list /\
        turned_down new_ChessVar skipped /\
        valid_entry new_ChessVar source = true /\
        valid_entry new_ChessVar end_ = true /\
        make_move new_ChessVar source end_ = (engine', Ok true)
  end.
Proof.
  apply (user_to_move_spec new_ChessVar
           ["a1"; "a2"; "zz"; "c1"; "c1"; "d3"; "h2"]).
  exact reachable_new.
Defined.

(** When the game is over [user_to_move] cannot return: every pair of
    lines is turned down and the call reads on until the input runs
    out, which is why [main] calls it only while the state is
    [UNFINISHED]. *)
Theorem user_to_move_game_over engine inputs :
  _state engine <> UNFINISHED ->
  user_to_move engine inputs = (engine, [], OutOfInput).
Proof.
  intros Hst. induction inputs as [| x | source end_ rest IH]
    using pair_induction; simpl; [reflexivity|reflexivity|].
  rewrite (make_move_terminal engine source end_ Hst).
  destruct (valid_entry engine source && valid_entry engine end_); exact IH.
Qed.

Lemma user_to_move_game_over_witness :
  user_to_move (set_state new_ChessVar TIE) ["c1"; "d3"; "a2"; "a3"]
  = (set_state new_ChessVar TIE, [], OutOfInput).
Proof.
  apply (user_to_move_game_over (set_state new_ChessVar TIE)).
  simpl. discriminate.
Defined.

(* ================================================================= *)
(** ** The outcome after a move, by the ranks of the kings *)

(** C2: after every accepted move the state and the grace flag are the
    ones of the outcome table, computed from the ranks of the two kings
    on the new board and from the old flag, a king being on the farthest
    rank when the rank read off its square equals the board size: the
    black king alone on it gives [BLACK_WON] at once, both give [TIE],
    the white king alone gives the grace turn first (flag set, state
    unchanged) and [WHITE_WON] when the flag was already set, and
    otherwise state and flag stay as they were. *)
Theorem make_move_recomputes_state self curr new self' :
  make_move self curr new = (self', Ok true) ->
  exists wk bk rw rb,
    locate_kings (_board self') = Ok (wk, bk) /\
    In (wk, King White) (_board self') /\
    In (bk, King Black) (_board self') /\
    rank_of wk = Ok rw /\ rank_of bk = Ok rb /\
    _board_size self' = _board_size self /\
    _state self = UNFINISHED /\
    (_state self', _game_end_imminent self')
    = recomputed_state (rw =? _board_size self) (rb =? _board_size self)
        (_game_end_imminent self).
Proof.
  intros Hmm.
  destruct (make_move_true_relocates _ _ _ _ Hmm)
    as (Hcan & p & _ & _ & Hsz & _).
  pose proof (can_make_move_with_true_unfinished _ _ _ _ _ _ Hcan) as Hst.
  destruct (make_move_true_outcome _ _ _ _ Hmm)
    as (wk & bk & w & b & Hk & Hw & Hb & Hrec).
  destruct (at_highest_rank_rank _ _ _ Hw) as (rw & Hrw & ->).
  destruct (at_highest_rank_rank _ _ _ Hb) as (rb & Hrb & ->).
  destruct (locate_kings_in _ _ _ Hk) as [Hinw Hinb].
  rewrite Hsz in Hrec.
  exists wk, bk, rw, rb. repeat (split; [assumption|]). exact Hrec.
Qed.

Lemma make_move_recomputes_state_witness :
  let recomputed (self : ChessVar) (curr new : string) :=
    exists wk bk rw rb,
      locate_kings (_board (fst (make_move self curr new))) = Ok (wk, bk) /\
      In (wk, King White) (_board (fst (make_move self curr new))) /\
      In (bk, King Black) (_board (fst (make_move self curr new))) /\
      rank_of wk = Ok rw /\ rank_of bk = Ok rb /\
      _board_size (fst (make_move self curr new)) = _board_size self /\
      _state self = UNFINISHED /\
      (_state (fst (make_move self curr new)),
       _game_end_imminent (fst (make_move self curr new)))
      = recomputed_state (rw =? _board_size self) (rb =? _board_size self)
          (_game_end_imminent self) in
  (* no king on the last rank *)
  recomputed new_ChessVar "c1" "d3" /\
  (* the white king alone, flag not yet set *)
  recomputed (play new_ChessVar game_white_reaches_goal) "a7" "b8" /\
  (* the white king alone, flag set *)
  recomputed (play new_ChessVar (game_white_reaches_goal ++ [("a7", "b8")]))
    "e3" "f1" /\
  (* both kings *)
  recomputed (play new_ChessVar game_both_reach_goal) "g7" "g8" /\
  (* the black king alone *)
  recomputed (play new_ChessVar game_black_reaches_goal) "f7" "g8".
Proof.
  intros recomputed. unfold recomputed.
  split; [|split; [|split; [|split]]].
  - apply (make_move_recomputes_state new_ChessVar "c1" "d3").
    vm_compute. reflexivity.
  - apply (make_move_recomputes_state
             (play new_ChessVar game_white_reaches_goal) "a7" "b8").
    vm_compute. reflexivity.
  - apply (make_move_recomputes_state
             (play new_ChessVar (game_white_reaches_goal ++ [("a7", "b8")]))
             "e3" "f1").
    vm_compute. reflexivity.
  - apply (make_move_recomputes_state
             (play new_ChessVar game_both_reach_goal) "g7" "g8").
    vm_compute. reflexivity.
  - apply (make_move_recomputes_state
             (play new_ChessVar game_black_reaches_goal) "f7" "g8").
    vm_compute. reflexivity.
Defined.

(** The three games are played move by move, no call being rejected. *)
Lemma games_accepted :
  all_accepted new_ChessVar
    (game_white_reaches_goal ++ [("a7", "b8"); ("e3", "f1")]) = true /\
  all_accepted new_ChessVar (game_both_reach_goal ++ [("g7", "g8")]) = true /\
  all_accepted new_ChessVar (game_black_reaches_goal ++ [("f7", "g8")]) = true.
Proof. repeat split; vm_compute; reflexivity. Qed.

(** The rows of the table are all met in play. *)
Lemma outcome_rows_in_play :
  (let s := fst (make_move (play new_ChessVar game_white_reaches_goal)
                   "a7" "b8") in
   (_state s, _game_end_imminent s) = (UNFINISHED, true)) /\
  (let s := fst (make_move
                   (play new_ChessVar
                      (game_white_reaches_goal ++ [("a7", "b8")]))
                   "e3" "f1") in
   (_state s, _game_end_imminent s) = (WHITE_WON, true)) /\
  (let s := fst (make_move (play new_ChessVar game_both_reach_goal)
                   "g7" "g8") in
   (_state s, _game_end_imminent s) = (TIE, true)) /\
  (let s := fst (make_move (play new_ChessVar game_black_reaches_goal)
                   "f7" "g8") in
   (_state s, _game_end_imminent s) = (BLACK_WON, false)).
Proof. repeat split; vm_compute; reflexivity. Qed.

(* ================================================================= *)
(** ** When [make_move] raises *)





(** A malformed destination that raises nothing, and one that raises. *)
Lemma make_move_malformed_examples :
  snd (make_move new_ChessVar "h2" "") = Ok false /\
  snd (make_move new_ChessVar "a1" "z") = Ok false /\
  snd (make_move new_ChessVar "a1" "zx") = Ok false /\
  snd (make_move new_ChessVar "a1" "") = Raise IndexError /\
  snd (make_move new_ChessVar "a1" "a") = Raise IndexError /\
  snd (make_move new_ChessVar "a1" "ax") = Raise ValueError.
Proof. repeat split; reflexivity. Qed.
